(** * Console chess: a shallow embedding of [chess.js]

    The program keeps one module-level game state (a board and the side
    to move), parses four-character moves, checks ownership and
    destination occupancy, applies the move, and saves or loads the state
    as JSON.  The embedding follows the JavaScript source function by
    function.  JavaScript values are untyped, so the state holds values of
    a small universe [jsval]; exceptions are explicit results; the
    module-level variables, the save file and the console are the fields
    of a [world] threaded through a state-and-exception monad. *)

From Stdlib Require Import ZArith String Ascii List Bool Lia.
From stdpp Require Import base tactics option list pretty.

Local Open Scope string_scope.
Local Open Scope Z_scope.
Local Set Warnings "-register-all".

(** ** Numbers the program computes with

    Every number the program computes is a small integer or [NaN]
    ([parseInt] of a non-digit, [charCodeAt] past the end). *)

Inductive num : Type :=
| Int (z : Z)
| NaN.

Definition num_sub (a b : num) : num :=
  match a, b with
  | Int x, Int y => Int (x - y)
  | _, _ => NaN
  end.

(** [s.charCodeAt(i)] for a literal index [i]. *)
Definition charCodeAt (s : string) (i : nat) : num :=
  match String.get i s with
  | Some c => Int (Z.of_nat (nat_of_ascii c))
  | None => NaN
  end.

Definition is_digit (c : ascii) : bool :=
  (48 <=? Z.of_nat (nat_of_ascii c)) && (Z.of_nat (nat_of_ascii c) <=? 57).

(** [parseInt(s[i])]: the argument is a one-character string, or
    [undefined] when [i] is past the end. *)
Definition parseInt_at (s : string) (i : nat) : num :=
  match String.get i s with
  | Some c => if is_digit c then Int (Z.of_nat (nat_of_ascii c) - 48) else NaN
  | None => NaN
  end.

(** [String.prototype.toUpperCase] on ASCII text: the letters a to z are
    mapped and every other byte is left as it is.  This is what the engine
    does on every ASCII string, the thirteen cell values among them;
    letters outside ASCII, which the engine maps too, are left alone
    here. *)
Definition upper_ascii (c : ascii) : ascii :=
  let n := nat_of_ascii c in
  if (97 <=? Z.of_nat n) && (Z.of_nat n <=? 122) then ascii_of_nat (n - 32) else c.

Fixpoint toUpperCase (s : string) : string :=
  match s with
  | EmptyString => EmptyString
  | String c r => String (upper_ascii c) (toUpperCase r)
  end.

(** ** Exceptions *)

Inductive exn : Type :=
| Error (message : string)
| TypeError (message : string)
| SyntaxError (message : string).

Definition message_of (e : exn) : string :=
  match e with
  | Error m | TypeError m | SyntaxError m => m
  end.

Inductive result (A : Type) : Type :=
| Ok (a : A)
| Throw (e : exn).
Arguments Ok {A} a.
Arguments Throw {A} e.

#[global] Instance result_ret : MRet result := fun A a => Ok a.

#[global] Instance result_bind : MBind result := fun A B k r =>
  match r with
  | Ok a => k a
  | Throw e => Throw e
  end.

(** ** Regular expressions of the shape [^c1c2...cn$]

    The only pattern of the program is an anchored sequence of character
    ranges.  Without the [m] flag, [$] matches at the end of the input
    only.  A string is modelled by its bytes; the pattern accepts four
    ASCII characters and nothing else, and a JavaScript string consists of
    those four characters exactly when its bytes do. *)

Record char_range := { range_lo : ascii; range_hi : ascii }.

Definition in_range (r : char_range) (c : ascii) : bool :=
  (nat_of_ascii (range_lo r) <=? nat_of_ascii c)%nat
  && (nat_of_ascii c <=? nat_of_ascii (range_hi r))%nat.

Fixpoint regex_test (pat : list char_range) (s : string) : bool :=
  match pat, s with
  | [], EmptyString => true
  | r :: pat', String c s' => in_range r c && regex_test pat' s'
  | _, _ => false
  end.

(** ** Coordinates and moves *)

Definition coord : Type := num * num.

Record Move := { from : coord; to : coord }.

(** [/^[a-h][1-8][a-h][1-8]$/] *)
Definition move_pattern : list char_range :=
  [ {| range_lo := "a"; range_hi := "h" |};
    {| range_lo := "1"; range_hi := "8" |};
    {| range_lo := "a"; range_hi := "h" |};
    {| range_lo := "1"; range_hi := "8" |} ].

Definition invalid_format_message : string :=
  "Invalid move format. Use algebraic notation (e.g., e2e4).".

Definition parseMove (move : string) : result Move :=
  if negb (regex_test move_pattern move) then
    Throw (Error invalid_format_message)
  else
    let fromCol := num_sub (charCodeAt move 0) (charCodeAt "a" 0) in
    let fromRow := num_sub (Int 8) (parseInt_at move 1) in
    let toCol := num_sub (charCodeAt move 2) (charCodeAt "a" 0) in
    let toRow := num_sub (Int 8) (parseInt_at move 3) in
    Ok {| from := (fromRow, fromCol); to := (toRow, toCol) |}.

(** The notation of the specification: file letter a to h, rank digit
    1 to 8, twice; row = 8 - rank, column = file letter - 'a'. *)
Definition code (c : ascii) : Z := Z.of_nat (nat_of_ascii c).

Definition is_file (c : ascii) : Prop := code "a" <= code c <= code "h".

Definition is_rank (c : ascii) : Prop := code "1" <= code c <= code "8".

Definition notation_of (f1 r1 f2 r2 : ascii) : string :=
  String f1 (String r1 (String f2 (String r2 EmptyString))).

Definition square (f r : ascii) : coord :=
  (Int (8 - (code r - code "0")), Int (code f - code "a")).

Definition well_formed_notation (s : string) : Prop :=
  exists f1 r1 f2 r2,
    s = notation_of f1 r1 f2 r2
    /\ is_file f1 /\ is_rank r1 /\ is_file f2 /\ is_rank r2.

Definition mentions (needle text : string) : Prop :=
  exists i, String.index 0 needle text = Some i.

(** ** The platform

    What the program takes from Node.js and its libraries: the numbers
    that may come out of a saved file (the program never computes with
    one), their printing, the text of the engine's own error messages
    (by the value and the property that was read off it or called on it),
    the error [fs.readFile] rejects with, [chalk]'s colouring of a
    string, and the [JSON] object.
    [JSON_stringify v] stands for [JSON.stringify(v, null, 2)];
    [JSON_parse] throws a [SyntaxError] on text that is not JSON. *)

Inductive color : Type :=
| Blue | Gray | White | Black | Cyan | Green | Yellow | Red.

Inductive jsval (number : Type) : Type :=
| JUndefined
| JNull
| JBool (b : bool)
| JNum (x : number)
| JStr (s : string)
| JArr (elems : list (jsval number))
| JObj (props : list (string * jsval number)).
Arguments JUndefined {number}.
Arguments JNull {number}.
Arguments JBool {number} b.
Arguments JNum {number} x.
Arguments JStr {number} s.
Arguments JArr {number} elems.
Arguments JObj {number} props.

Class Platform : Type := {
  number : Type;
  number_to_string : number -> string;
  engine_message : jsval number -> string -> string;
  read_failure : exn;
  chalk : color -> string -> string;
  JSON_stringify : jsval number -> string;
  JSON_parse : string -> result (jsval number)
}.

(** Objects keep their properties in insertion order. *)
Fixpoint assoc_get {A} (dflt : A) (props : list (string * A)) (key : string) : A :=
  match props with
  | [] => dflt
  | (k, v) :: rest => if String.eqb k key then v else assoc_get dflt rest key
  end.

Fixpoint assoc_set {A} (props : list (string * A)) (key : string) (x : A)
  : list (string * A) :=
  match props with
  | [] => [(key, x)]
  | (k, v) :: rest =>
      if String.eqb k key then (k, x) :: rest else (k, v) :: assoc_set rest key x
  end.

Fixpoint assoc_has {A} (props : list (string * A)) (key : string) : bool :=
  match props with
  | [] => false
  | (k, _) :: rest => String.eqb k key || assoc_has rest key
  end.

#[global] Instance num_eq_dec : EqDecision num.
Proof. solve_decision. Defined.

Section Program.

Context {P : Platform}.

Local Abbreviation value := (jsval number).

(** *** Operations on values *)

(** [v === s] for a string [s]. *)
Definition strict_eq_string (v : value) (s : string) : bool :=
  match v with
  | JStr s' => String.eqb s' s
  | _ => false
  end.

(** Property keys: [ToString] of a computed number. *)
Definition num_key (k : num) : string :=
  match k with
  | Int z => pretty z
  | NaN => "NaN"
  end.

(** [v[k]] for a computed number [k].  Reading a missing element or
    property gives [undefined]; reading anything off [undefined] or
    [null] throws. *)
Definition get_index (v : value) (k : num) : result value :=
  match v with
  | JUndefined | JNull => Throw (TypeError (engine_message v (num_key k)))
  | JBool _ | JNum _ => Ok JUndefined
  | JStr s =>
      match k with
      | Int z =>
          if 0 <=? z then
            match String.get (Z.to_nat z) s with
            | Some c => Ok (JStr (String c EmptyString))
            | None => Ok JUndefined
            end
          else Ok JUndefined
      | NaN => Ok JUndefined
      end
  | JArr elems =>
      match k with
      | Int z => if 0 <=? z then Ok (default JUndefined (elems !! Z.to_nat z))
                 else Ok JUndefined
      | NaN => Ok JUndefined
      end
  | JObj props => Ok (assoc_get JUndefined props (num_key k))
  end.

(** [v.key] for the two names the program reads, [board] and
    [currentPlayer]; only an object can have them. *)
Definition get_named (v : value) (key : string) : result value :=
  match v with
  | JUndefined | JNull => Throw (TypeError (engine_message v key))
  | JObj props => Ok (assoc_get JUndefined props key)
  | _ => Ok JUndefined
  end.

(** [v[k] = x], giving [v] after the assignment.  An array grows when
    the index is past its end (the gap reads as [undefined]); a key that
    is not an index becomes a named property, which is not an element, so
    the elements stay as they are.  The script is not in strict mode:
    assigning to a property of a primitive does nothing. *)
Definition set_index (v : value) (k : num) (x : value) : result value :=
  match v with
  | JUndefined | JNull => Throw (TypeError (engine_message v (num_key k)))
  | JBool _ | JNum _ | JStr _ => Ok v
  | JArr elems =>
      match k with
      | Int z =>
          if 0 <=? z then
            let i := Z.to_nat z in
            if (i <? length elems)%nat then Ok (JArr (<[i := x]> elems))
            else Ok (JArr (elems ++ replicate (i - length elems) JUndefined ++ [x]))
          else Ok v
      | NaN => Ok v
      end
  | JObj props => Ok (JObj (assoc_set props (num_key k) x))
  end.

(** [v.toUpperCase()]: only a string has the method. *)
Definition call_toUpperCase (v : value) : result string :=
  match v with
  | JStr s => Ok (toUpperCase s)
  | _ => Throw (TypeError (engine_message v "toUpperCase"))
  end.

(** [piece.toUpperCase() === piece] *)
Definition is_upper (piece : value) : result bool :=
  up ← call_toUpperCase piece;
  Ok (strict_eq_string piece up).

(** [board[r][c]] *)
Definition get_cell (board : value) (r c : num) : result value :=
  row ← get_index board r;
  get_index row c.

(** [board[r][c] = x].  The row is an object of its own (the rows of the
    initial board are separate array literals and [JSON.parse] builds
    fresh arrays), so the write shows in that row of the board and
    nowhere else. *)
Definition set_cell (board : value) (r c : num) (x : value) : result value :=
  row ← get_index board r;
  row' ← set_index row c x;
  set_index board r row'.

(** *** The validator *)

Definition isValidMove (board currentPlayer : value) (from to : coord)
  : result bool :=
  let '(fromRow, fromCol) := from in
  let '(toRow, toCol) := to in
  piece ← get_cell board fromRow fromCol;
  if strict_eq_string piece "." then Ok false else
  isWhitePiece ← is_upper piece;
  if (strict_eq_string currentPlayer "white" && negb isWhitePiece)
     || (strict_eq_string currentPlayer "black" && isWhitePiece)
  then Ok false else
  destPiece ← get_cell board toRow toCol;
  if strict_eq_string destPiece "." then Ok true else
  isDestWhite ← is_upper destPiece;
  Ok (negb (Bool.eqb isWhitePiece isDestWhite)).

(** [`${v}`]: [ToString] of a value.  An array joins its elements with
    commas, [undefined] and [null] elements giving the empty string; a
    plain object prints as [[object Object]] unless it has a [toString]
    property of its own, which is data and cannot be called. *)
Fixpoint to_string (v : value) : result string :=
  match v with
  | JUndefined => Ok "undefined"
  | JNull => Ok "null"
  | JBool b => Ok (if b then "true" else "false")
  | JNum x => Ok (number_to_string x)
  | JStr s => Ok s
  | JArr elems =>
      let elem e :=
        match e with
        | JUndefined | JNull => Ok EmptyString
        | _ => to_string e
        end in
      (fix join (l : list value) : result string :=
         match l with
         | [] => Ok EmptyString
         | [e] => elem e
         | e :: rest =>
             s ← elem e;
             t ← join rest;
             Ok (s ++ "," ++ t)
         end) elems
  | JObj props =>
      if assoc_has props "toString" then Throw (TypeError (engine_message v "toString"))
      else Ok "[object Object]"
  end.

(** *** The world: module variables, save file, console *)

Record world : Type := {
  board : value;
  currentPlayer : value;
  (** the text of [GAME_STATE_FILE], [None] when it cannot be read *)
  file : option string;
  (** the lines printed so far, oldest first *)
  console : list string
}.

Definition M (A : Type) : Type := world -> result A * world.

#[global] Instance M_ret : MRet M := fun A a w => (Ok a, w).

(** Sequencing: a statement that throws ends the block, and the world is
    the one it had reached. *)
#[global] Instance M_bind : MBind M := fun A B k m w =>
  match m w with
  | (Ok a, w') => k a w'
  | (Throw e, w') => (Throw e, w')
  end.

Definition lift {A} (r : result A) : M A := fun w => (r, w).

(** [try { body } catch (e) { handler }]: what the body changed before
    it threw stays changed. *)
Definition try_catch {A} (body : M A) (handler : exn -> M A) : M A :=
  fun w =>
    match body w with
    | (Ok a, w') => (Ok a, w')
    | (Throw e, w') => handler e w'
    end.

Definition get_board : M value := fun w => (Ok (board w), w).
Definition get_currentPlayer : M value := fun w => (Ok (currentPlayer w), w).

Definition set_board (b : value) : M unit := fun w =>
  (Ok tt, {| board := b; currentPlayer := currentPlayer w;
             file := file w; console := console w |}).

Definition set_currentPlayer (p : value) : M unit := fun w =>
  (Ok tt, {| board := board w; currentPlayer := p;
             file := file w; console := console w |}).

Definition console_log (line : string) : M unit := fun w =>
  (Ok tt, {| board := board w; currentPlayer := currentPlayer w;
             file := file w; console := console w ++ [line] |}).

Definition readFile : M string := fun w =>
  match file w with
  | Some data => (Ok data, w)
  | None => (Throw read_failure, w)
  end.

Definition writeFile (data : string) : M unit := fun w =>
  (Ok tt, {| board := board w; currentPlayer := currentPlayer w;
             file := Some data; console := console w |}).

Fixpoint for_each {A} (l : list A) (body : A -> M unit) : M unit :=
  match l with
  | [] => mret tt
  | a :: rest => body a;; for_each rest body
  end.

(** *** The initial state *)

Definition row_of (tags : list string) : value := JArr (map JStr tags).

Definition initial_board : value :=
  JArr [
    row_of ["r"; "n"; "b"; "q"; "k"; "b"; "n"; "r"];
    row_of ["p"; "p"; "p"; "p"; "p"; "p"; "p"; "p"];
    row_of ["."; "."; "."; "."; "."; "."; "."; "."];
    row_of ["."; "."; "."; "."; "."; "."; "."; "."];
    row_of ["."; "."; "."; "."; "."; "."; "."; "."];
    row_of ["."; "."; "."; "."; "."; "."; "."; "."];
    row_of ["P"; "P"; "P"; "P"; "P"; "P"; "P"; "P"];
    row_of ["R"; "N"; "B"; "Q"; "K"; "B"; "N"; "R"]
  ].

Definition initial_world (f : option string) : world :=
  {| board := initial_board; currentPlayer := JStr "white";
     file := f; console := [] |}.

(** *** Persistence *)

Definition saveGame : M unit :=
  b ← get_board;
  p ← get_currentPlayer;
  let state := JObj [("board", b); ("currentPlayer", p)] in
  writeFile (JSON_stringify state);;
  console_log (chalk Green "Game saved successfully!").

Definition loadGame : M unit :=
  try_catch
    (data ← readFile;
     state ← lift (JSON_parse data);
     b ← lift (get_named state "board");
     set_board b;;
     p ← lift (get_named state "currentPlayer");
     set_currentPlayer p;;
     console_log (chalk Green "Game loaded successfully!"))
    (fun _ => console_log (chalk Yellow "No saved game found. Starting new game.")).

(** *** Presentation *)

Definition indices : list Z := [0; 1; 2; 3; 4; 5; 6; 7].

(** One cell of a row: [color(piece === '.' ? '.' : piece) + ' ']. *)
Definition cell_text (b : value) (i j : Z) : result string :=
  piece ← get_cell b (Int i) (Int j);
  if strict_eq_string piece "." then Ok (chalk Gray "." ++ " ") else
  upper ← is_upper piece;
  text ← to_string piece;
  let color := if upper : bool then White else Black in
  Ok (chalk color text ++ " ").

Fixpoint row_text (b : value) (i : Z) (js : list Z) (row : string) : result string :=
  match js with
  | [] => Ok row
  | j :: js' => t ← cell_text b i j; row_text b i js' (row ++ t)
  end.

Definition displayBoard : M unit :=
  console_log (chalk Blue "  a b c d e f g h");;
  for_each indices (fun i =>
    b ← get_board;
    row ← lift (row_text b i indices (pretty (8 - i) ++ " "));
    console_log (row ++ pretty (8 - i)));;
  console_log (chalk Blue "  a b c d e f g h");;
  p ← get_currentPlayer;
  text ← lift (to_string p);
  console_log (chalk Cyan ("Current player: " ++ text)).

(** *** Making a move *)

(** Lines 96 to 100 of [makeMove]: the move applicator. *)
Definition applyMove (from to : coord) : M unit :=
  let '(fromRow, fromCol) := from in
  let '(toRow, toCol) := to in
  b ← get_board;
  piece ← lift (get_cell b fromRow fromCol);
  b1 ← lift (set_cell b toRow toCol piece);
  set_board b1;;
  b2 ← lift (set_cell b1 fromRow fromCol (JStr "."));
  set_board b2;;
  p ← get_currentPlayer;
  set_currentPlayer (if strict_eq_string p "white" then JStr "black" else JStr "white").

Definition makeMove (move : string) : M unit :=
  try_catch
    (mv ← lift (parseMove move);
     b ← get_board;
     p ← get_currentPlayer;
     valid ← lift (isValidMove b p (from mv) (to mv));
     if negb valid then console_log (chalk Red "Invalid move!")
     else
       applyMove (from mv) (to mv);;
       console_log (chalk Green "Move successful!");;
       displayBoard)
    (fun error => console_log (chalk Red (message_of error))).

(** *** The commands

    The four verbs of the command line.  A run without a verb only prints
    (the usage text and the board) and is left out. *)

Inductive command : Type :=
| CmdMove (notation : string)
| CmdBoard
| CmdSave
| CmdLoad.

Definition run_command (c : command) : M unit :=
  match c with
  | CmdMove notation => makeMove notation
  | CmdBoard => displayBoard
  | CmdSave => saveGame
  | CmdLoad => loadGame;; displayBoard
  end.

(** One run of the program: the module variables are initialised, then
    the command of the command line runs.  The command line is taken as
    already split into its verb and argument: what the command-line
    library does before an action runs (a notation it reads as an option,
    a missing argument) and the path of the save file, which needs a home
    directory, are not modelled. *)
Definition main (c : command) (f : option string) : result unit * world :=
  run_command c (initial_world f).

(** ** The data model of the specification *)

(** The thirteen cell values: six kinds in two cases, and the empty
    marker. *)
Definition piece_tags : list string :=
  ["r"; "n"; "b"; "q"; "k"; "p"; "R"; "N"; "B"; "Q"; "K"; "P"; "."].

Definition is_tag (s : string) : bool := existsb (String.eqb s) piece_tags.

Definition is_piece (v : value) : bool :=
  match v with
  | JStr s => is_tag s
  | _ => false
  end.

Definition is_row (v : value) : bool :=
  match v with
  | JArr cells => (length cells =? 8)%nat && forallb is_piece cells
  | _ => false
  end.

(** The board invariant: eight rows of eight cells, each a piece tag or
    the empty marker. *)
Definition is_grid (v : value) : bool :=
  match v with
  | JArr rows => (length rows =? 8)%nat && forallb is_row rows
  | _ => false
  end.

Inductive side : Type := WhiteSide | BlackSide.

Definition side_name (s : side) : string :=
  match s with
  | WhiteSide => "white"
  | BlackSide => "black"
  end.

Definition side_val (s : side) : value := JStr (side_name s).

Definition opposite (s : side) : side :=
  match s with
  | WhiteSide => BlackSide
  | BlackSide => WhiteSide
  end.

Definition side_eqb (a b : side) : bool :=
  match a, b with
  | WhiteSide, WhiteSide | BlackSide, BlackSide => true
  | _, _ => false
  end.

Definition is_side (v : value) : bool :=
  strict_eq_string v "white" || strict_eq_string v "black".

(** A coordinate of the grid: row and column in 0..7. *)
Definition coord_ok (c : coord) : bool :=
  match c with
  | (Int r, Int k) => (0 <=? r) && (r <=? 7) && (0 <=? k) && (k <=? 7)
  | _ => false
  end.

Definition cell (b : value) (c : coord) : result value :=
  get_cell b (fst c) (snd c).

(** An access [b[r][k]] that lands on an element of a row of [b]. *)
Definition in_bounds (b : value) (c : coord) : Prop :=
  exists rows cells r k,
    b = JArr rows /\ c = (Int r, Int k)
    /\ 0 <= r < Z.of_nat (length rows)
    /\ rows !! Z.to_nat r = Some (JArr cells)
    /\ 0 <= k < Z.of_nat (length cells).

(** Colour is the case of the tag: upper case is white, lower case is
    black; the empty marker has none. *)
Definition white_tags : list string := ["R"; "N"; "B"; "Q"; "K"; "P"].
Definition black_tags : list string := ["r"; "n"; "b"; "q"; "k"; "p"].

Definition tag_color (tag : string) : option side :=
  if existsb (String.eqb tag) white_tags then Some WhiteSide
  else if existsb (String.eqb tag) black_tags then Some BlackSide
  else None.

(** The validator as the specification words it, on the two cells and
    the side to move:
    1. reject if the source cell is empty;
    2. reject if the source piece's colour is not the side to move;
    3. accept if the destination cell is empty;
    4. otherwise accept only if the destination piece's colour differs
       from the source piece's colour. *)
Definition validator_spec (stm : side) (src dst : string) : bool :=
  match tag_color src with
  | None => false
  | Some c =>
      if negb (side_eqb c stm) then false
      else
        match tag_color dst with
        | None => true
        | Some d => negb (side_eqb d c)
        end
  end.

(** The canonical starting position, by kind and colour. *)
Inductive kind : Type := Pawn | Knight | Bishop | Rook | Queen | King.

Definition tag_of (s : side) (k : kind) : string :=
  match s, k with
  | WhiteSide, Pawn => "P" | WhiteSide, Knight => "N" | WhiteSide, Bishop => "B"
  | WhiteSide, Rook => "R" | WhiteSide, Queen => "Q" | WhiteSide, King => "K"
  | BlackSide, Pawn => "p" | BlackSide, Knight => "n" | BlackSide, Bishop => "b"
  | BlackSide, Rook => "r" | BlackSide, Queen => "q" | BlackSide, King => "k"
  end.

Definition back_rank : list kind :=
  [Rook; Knight; Bishop; Queen; King; Bishop; Knight; Rook].

Definition back_row (s : side) : value :=
  JArr (map (fun k => JStr (tag_of s k)) back_rank).

Definition pawn_row (s : side) : value :=
  JArr (replicate 8 (JStr (tag_of s Pawn))).

Definition empty_row : value := JArr (replicate 8 (JStr ".")).

Definition standard_position : value :=
  JArr [ back_row BlackSide; pawn_row BlackSide;
         empty_row; empty_row; empty_row; empty_row;
         pawn_row WhiteSide; back_row WhiteSide ].

(** *** Persistence, as a system *)

(** What [saveGame] hands to [JSON.stringify]. *)
Definition snapshot (b p : value) : value :=
  JObj [("board", b); ("currentPlayer", p)].

(** The contract of the platform's [JSON] on game states: parsing the
    text of a snapshot gives the snapshot back. *)
Definition json_faithful : Prop :=
  forall b p, is_grid b = true -> is_side p = true ->
              JSON_parse (JSON_stringify (snapshot b p)) = Ok (snapshot b p).

(** The failures [loadGame] catches, read off its [try] block: the file
    cannot be read, its text is not JSON, or the value parsed is [null],
    off which no property can be read.  This is narrower than the
    specification's failure ([absent_or_malformed] below): text that is
    JSON but holds no game state throws nothing inside the block. *)
Definition load_fails (f : option string) : Prop :=
  f = None
  \/ exists data,
       f = Some data
       /\ ((exists e, JSON_parse data = Throw e)
           \/ exists state e, JSON_parse data = Ok state
                              /\ get_named state "board" = Throw e).

(** The save file holds a saved game. *)
Definition saved_game (f : option string) : Prop :=
  exists b p, is_grid b = true /\ is_side p = true
              /\ f = Some (JSON_stringify (snapshot b p)).

Definition file_ok (f : option string) : Prop := load_fails f \/ saved_game f.

Definition no_saved_game_line : string :=
  chalk Yellow "No saved game found. Starting new game.".

Definition invalid_move_line : string := chalk Red "Invalid move!".

Definition add_lines (lines : list string) (w : world) : world :=
  {| board := board w; currentPlayer := currentPlayer w;
     file := file w; console := console w ++ lines |}.

Definition add_line (line : string) (w : world) : world := add_lines [line] w.

(** The failure of a load in the specification's words: the file is
    absent or its content is malformed, that is, the content is not the
    text of a game state (an object with a grid for board and a side to
    move). *)
Definition holds_game_state (data : string) : Prop :=
  exists state b p,
    JSON_parse data = Ok state
    /\ get_named state "board" = Ok b
    /\ get_named state "currentPlayer" = Ok p
    /\ is_grid b = true /\ is_side p = true.

Definition absent_or_malformed (f : option string) : Prop :=
  match f with
  | None => True
  | Some data => ~ holds_game_state data
  end.

(** The fall-back the specification asks of a load, at process start: it
    returns normally, the game state is the default one and the one line
    it reports is that no saved game was found. *)
Definition falls_back (f : option string) : Prop :=
  loadGame (initial_world f)
  = (Ok tt, add_line no_saved_game_line (initial_world f)).

(** The game state and the save file of two worlds agree. *)
Definition same_game (w w' : world) : Prop :=
  board w' = board w /\ currentPlayer w' = currentPlayer w /\ file w' = file w.

(** The save files a run of the program can find: the one the first
    run finds, and the one each run leaves to the next. *)
Inductive reachable_file : option string -> Prop :=
| file_first (f : option string) :
    file_ok f -> reachable_file f
| file_next (c : command) (f : option string) :
    reachable_file f -> reachable_file (file (snd (main c f))).

(** The worlds the program can be in: a run is one process, which starts
    in the initial state beside the save file it finds and runs one
    command. *)
Inductive reachable : world -> Prop :=
| reach_start (f : option string) :
    reachable_file f -> reachable (initial_world f)
| reach_run (c : command) (f : option string) :
    reachable_file f -> reachable (snd (main c f)).

(** A computation that leaves the game state and the save file alone. *)
Definition keeps {A} (m : M A) : Prop := forall w, same_game w (snd (m w)).

(** What holds of every reachable world. *)
Definition invariant (w : world) : Prop :=
  is_grid (board w) = true /\ is_side (currentPlayer w) = true /\ file_ok (file w).

(** *** The picture of a board *)

Definition tag_text (v : value) : string :=
  match v with
  | JStr s => s
  | _ => EmptyString
  end.

Definition row_tags (v : value) : list string :=
  match v with
  | JArr cells => map tag_text cells
  | _ => []
  end.

(** The tags of a grid, row by row. *)
Definition board_tags (v : value) : list (list string) :=
  match v with
  | JArr rows => map row_tags rows
  | _ => []
  end.

(** A cell as it is printed: the empty marker in gray, a white piece in
    white, a black piece in black. *)
Definition paint (tag : string) : string :=
  match tag_color tag with
  | None => chalk Gray "."
  | Some WhiteSide => chalk White tag
  | Some BlackSide => chalk Black tag
  end.

Definition cells_text (tags : list string) : string :=
  fold_right (fun t acc => paint t ++ " " ++ acc) EmptyString tags.

(** A row as it is printed: the rank, the cells from file a to file h,
    each followed by a space, and the rank again. *)
Definition rank_line (rank : Z) (tags : list string) : string :=
  pretty rank ++ " " ++ cells_text tags ++ pretty rank.

Definition header_line : string := chalk Blue "  a b c d e f g h".

Definition player_line (p : string) : string := chalk Cyan ("Current player: " ++ p).

Definition ranks : list Z := [8; 7; 6; 5; 4; 3; 2; 1].

(** The lines [displayBoard] prints for a grid and a side to move. *)
Definition picture (tagss : list (list string)) (p : string) : list string :=
  (header_line :: zip_with rank_line ranks tagss ++ [header_line; player_line p])%list.

(** *** Counting pieces *)

Definition all_coords : list coord :=
  flat_map (fun r => map (fun k => (Int r, Int k)) indices) indices.

(** 1 when the cell at [c] holds the tag [t], 0 otherwise. *)
Definition holds (b : value) (t : string) (c : coord) : nat :=
  match cell b c with
  | Ok v => if strict_eq_string v t then 1%nat else 0%nat
  | Throw _ => 0%nat
  end.

(** The number of cells of the board that hold the tag [t]. *)
Definition count_tag (b : value) (t : string) : nat :=
  list_sum (map (holds b t) all_coords).

(** Several moves, one after the other, on the same state. *)
Definition run_moves (moves : list string) : M unit := for_each moves makeMove.

(** *** More of the validator and the parser *)

(** The validator without the ownership rule. *)
Definition validator_any_side (src dst : string) : bool :=
  match tag_color src with
  | None => false
  | Some c =>
      match tag_color dst with
      | None => true
      | Some d => negb (side_eqb d c)
      end
  end.

(** In the initial position with white to move: from the two white rows
    to any of the other six. *)
Definition first_move_ok (mv : Move) : bool :=
  match from mv, to mv with
  | (Int r, _), (Int r', _) => (6 <=? r) && (r' <=? 5)
  | _, _ => false
  end.

(** The validator agrees with [first_move_ok] on a pair of squares. *)
Definition first_move_check (ft : coord * coord) : bool :=
  match isValidMove initial_board (JStr "white") (fst ft) (snd ft) with
  | Ok v => Bool.eqb v (first_move_ok {| from := fst ft; to := snd ft |})
  | Throw _ => false
  end.

(** The notation of a square and of a move. *)
Definition file_char (k : Z) : ascii := ascii_of_nat (Z.to_nat (code "a" + k)).

Definition rank_char (r : Z) : ascii := ascii_of_nat (Z.to_nat (code "0" + (8 - r))).

Definition unparse (mv : Move) : string :=
  match from mv, to mv with
  | (Int r, Int k), (Int r', Int k') =>
      notation_of (file_char k) (rank_char r) (file_char k') (rank_char r')
  | _, _ => EmptyString
  end.

(** *** The save file over the runs of the program *)

(** The save files the program leaves behind when the first run finds
    none. *)
Inductive left_behind : option string -> Prop :=
| left_none : left_behind None
| left_next (c : command) (f : option string) :
    left_behind f -> left_behind (file (snd (main c f))).

(** The text [saveGame] writes in the initial state. *)
Definition initial_save : string :=
  JSON_stringify (snapshot initial_board (JStr "white")).

(** The world after a computation has the same save file and a console
    that only grew. *)
Definition grows (w w' : world) : Prop :=
  file w' = file w /\ exists lines, console w' = (console w ++ lines)%list.

Definition quiet {A} (m : M A) : Prop := forall w, grows w (snd (m w)).

(** A value off which a property can be read. *)
Definition defined (v : value) : Prop := v <> JUndefined /\ v <> JNull.

End Program.

(** ** A reference platform

    A platform to run the model on: integers for numbers, colours off
    ([chalk] leaves the text as it is when the terminal has no colour
    support), and a [JSON] that writes with a two-space indent as
    [JSON.stringify(v, null, 2)] does and reads JSON text with integer
    numbers and the one-letter escapes. *)

Definition dquote : ascii := ascii_of_nat 34.
Definition backslash : ascii := ascii_of_nat 92.
Definition newline : ascii := ascii_of_nat 10.

Definition str1 (c : ascii) : string := String c EmptyString.

Definition hex_digit (n : nat) : ascii :=
  ascii_of_nat (if (n <? 10)%nat then 48 + n else 87 + n).

(** [QuoteJSONString], one character. *)
Definition escape_char (c : ascii) : string :=
  let n := nat_of_ascii c in
  if Ascii.eqb c dquote then String backslash (str1 dquote)
  else if Ascii.eqb c backslash then String backslash (str1 backslash)
  else if (n =? 8)%nat then String backslash "b"
  else if (n =? 9)%nat then String backslash "t"
  else if (n =? 10)%nat then String backslash "n"
  else if (n =? 12)%nat then String backslash "f"
  else if (n =? 13)%nat then String backslash "r"
  else if (n <? 32)%nat then
    String backslash ("u00" ++ String (hex_digit (n / 16)) (str1 (hex_digit (n mod 16))))
  else str1 c.

Fixpoint escape (s : string) : string :=
  match s with
  | EmptyString => EmptyString
  | String c r => escape_char c ++ escape r
  end.

Definition quote (s : string) : string :=
  String dquote (escape s ++ str1 dquote).

Definition item_sep (inner : string) : string := String "," (String newline inner).

(** The brackets around a non-empty list of items, one item a line. *)
Definition wrap (open close : ascii) (indent : string) (items : list string) : string :=
  match items with
  | [] => String open (str1 close)
  | _ =>
      let inner := indent ++ "  " in
      String open (String newline inner ++ String.concat (item_sep inner) items
                   ++ String newline indent ++ str1 close)
  end.

(** [SerializeJSONProperty]: [None] stands for [undefined], which an
    object leaves out and an array writes as [null]. *)
Fixpoint ref_serialize (indent : string) (v : jsval Z) : option string :=
  match v with
  | JUndefined => None
  | JNull => Some "null"
  | JBool b => Some (if b then "true" else "false")
  | JNum z => Some (pretty z)
  | JStr s => Some (quote s)
  | JArr elems =>
      let inner := indent ++ "  " in
      Some (wrap "[" "]" indent
              (map (fun e => default "null" (ref_serialize inner e)) elems))
  | JObj props =>
      let inner := indent ++ "  " in
      Some (wrap "{" "}" indent
              (omap (fun kv => option_map (fun t => quote (fst kv) ++ ": " ++ t)
                                          (ref_serialize inner (snd kv))) props))
  end.

Definition ref_stringify (v : jsval Z) : string :=
  default "undefined" (ref_serialize EmptyString v).

Definition is_ws (c : ascii) : bool :=
  let n := nat_of_ascii c in
  (n =? 32)%nat || (n =? 10)%nat || (n =? 13)%nat || (n =? 9)%nat.

Fixpoint skip_ws (s : string) : string :=
  match s with
  | EmptyString => EmptyString
  | String c r => if is_ws c then skip_ws r else s
  end.

Definition unescape (c : ascii) : option ascii :=
  if Ascii.eqb c dquote then Some dquote
  else if Ascii.eqb c backslash then Some backslash
  else if Ascii.eqb c "/" then Some "/"%char
  else if Ascii.eqb c "b" then Some (ascii_of_nat 8)
  else if Ascii.eqb c "t" then Some (ascii_of_nat 9)
  else if Ascii.eqb c "n" then Some (ascii_of_nat 10)
  else if Ascii.eqb c "f" then Some (ascii_of_nat 12)
  else if Ascii.eqb c "r" then Some (ascii_of_nat 13)
  else None.

Definition cons_fst (c : ascii) (r : option (string * string)) : option (string * string) :=
  match r with
  | Some (s, rest) => Some (String c s, rest)
  | None => None
  end.

(** The characters of a string literal after its opening quote, and what
    follows the closing quote. *)
Fixpoint parse_chars (s : string) : option (string * string) :=
  match s with
  | EmptyString => None
  | String c r =>
      if Ascii.eqb c dquote then Some (EmptyString, r)
      else if Ascii.eqb c backslash then
        match r with
        | String e r' =>
            match unescape e with
            | Some c' => cons_fst c' (parse_chars r')
            | None => None
            end
        | EmptyString => None
        end
      else if (nat_of_ascii c <? 32)%nat then None
      else cons_fst c (parse_chars r)
  end.

Fixpoint parse_digits (acc : Z) (s : string) : Z * string :=
  match s with
  | String c r =>
      if is_digit c then parse_digits (10 * acc + (code c - 48)) r else (acc, s)
  | EmptyString => (acc, s)
  end.

(** An integer: an optional minus sign and digits, with nothing of a
    fraction or an exponent after them.  Numbers with a fraction or an
    exponent are refused and leading zeros are read, unlike [JSON.parse];
    game states hold no number, so the texts the program writes are read
    alike. *)
Definition parse_int (s : string) : option (Z * string) :=
  let '(neg, s1) :=
    match s with
    | String c r => if Ascii.eqb c "-" then (true, r) else (false, s)
    | EmptyString => (false, s)
    end in
  match s1 with
  | String c _ =>
      if is_digit c then
        let '(n, rest) := parse_digits 0 s1 in
        match rest with
        | String d _ =>
            if Ascii.eqb d "." || Ascii.eqb d "e" || Ascii.eqb d "E" then None
            else Some (if neg then - n else n, rest)
        | EmptyString => Some (if neg then - n else n, rest)
        end
      else None
  | EmptyString => None
  end.

(** The rest of [s] after the prefix [word], if it has that prefix. *)
Fixpoint expect (word s : string) : option string :=
  match word with
  | EmptyString => Some s
  | String c word' =>
      match s with
      | String d r => if Ascii.eqb c d then expect word' r else None
      | EmptyString => None
      end
  end.

Definition starts_with (c : ascii) (s : string) : option string :=
  match s with
  | String d r => if Ascii.eqb c d then Some r else None
  | EmptyString => None
  end.

Fixpoint parse_value (fuel : nat) (s : string) : option (jsval Z * string) :=
  match fuel with
  | O => None
  | S n =>
      match skip_ws s with
      | EmptyString => None
      | String c r =>
          if Ascii.eqb c dquote then
            '(text, rest) ← parse_chars r; Some (JStr text, rest)
          else if Ascii.eqb c "[" then
            match starts_with "]" (skip_ws r) with
            | Some rest => Some (JArr [], rest)
            | None => '(elems, rest) ← parse_elements n r; Some (JArr elems, rest)
            end
          else if Ascii.eqb c "{" then
            match starts_with "}" (skip_ws r) with
            | Some rest => Some (JObj [], rest)
            | None =>
                '(members, rest) ← parse_members n r;
                Some (JObj (fold_left (fun acc kv => assoc_set acc (fst kv) (snd kv))
                                      members []), rest)
            end
          else if Ascii.eqb c "n" then rest ← expect "ull" r; Some (JNull, rest)
          else if Ascii.eqb c "t" then rest ← expect "rue" r; Some (JBool true, rest)
          else if Ascii.eqb c "f" then rest ← expect "alse" r; Some (JBool false, rest)
          else '(z, rest) ← parse_int (String c r); Some (JNum z, rest)
      end
  end
with parse_elements (fuel : nat) (s : string) : option (list (jsval Z) * string) :=
  match fuel with
  | O => None
  | S n =>
      '(v, r) ← parse_value n s;
      match skip_ws r with
      | String c r' =>
          if Ascii.eqb c "," then
            '(more, rest) ← parse_elements n r'; Some (v :: more, rest)
          else if Ascii.eqb c "]" then Some ([v], r')
          else None
      | EmptyString => None
      end
  end
with parse_members (fuel : nat) (s : string)
  : option (list (string * jsval Z) * string) :=
  match fuel with
  | O => None
  | S n =>
      r0 ← starts_with dquote (skip_ws s);
      '(key, r1) ← parse_chars r0;
      r2 ← starts_with ":" (skip_ws r1);
      '(v, r3) ← parse_value n r2;
      match skip_ws r3 with
      | String c r' =>
          if Ascii.eqb c "," then
            '(more, rest) ← parse_members n r'; Some ((key, v) :: more, rest)
          else if Ascii.eqb c "}" then Some ([(key, v)], r')
          else None
      | EmptyString => None
      end
  end.

Definition ref_parse (text : string) : result (jsval Z) :=
  match parse_value (S (String.length text)) text with
  | Some (v, rest) =>
      match skip_ws rest with
      | EmptyString => Ok v
      | _ => Throw (SyntaxError "Unexpected non-whitespace character after JSON")
      end
  | None => Throw (SyntaxError "Unexpected token in JSON")
  end.

(** The values whose text needs no escape and reads back as it was
    written: strings of printable characters without quote or backslash,
    [null], the booleans, and arrays and objects of such values, the keys of
    an object being different from each other. *)
Definition plain_char (c : ascii) : bool :=
  negb (nat_of_ascii c <? 32)%nat
  && negb (Ascii.eqb c dquote) && negb (Ascii.eqb c backslash).

Fixpoint plain_string (s : string) : bool :=
  match s with
  | EmptyString => true
  | String c r => plain_char c && plain_string r
  end.

Fixpoint distinct_keys {A} (props : list (string * A)) : bool :=
  match props with
  | [] => true
  | (k, _) :: rest => negb (assoc_has rest k) && distinct_keys rest
  end.

Fixpoint plain (v : jsval Z) : bool :=
  match v with
  | JUndefined | JNum _ => false
  | JNull | JBool _ => true
  | JStr s => plain_string s
  | JArr elems => forallb plain elems
  | JObj props =>
      forallb (fun kv => plain_string (fst kv) && plain (snd kv)) props
      && distinct_keys props
  end.

(** The fuel the parser needs for a value. *)
Fixpoint size (v : jsval Z) : nat :=
  match v with
  | JArr elems => S (list_sum (map (fun e => S (size e)) elems))
  | JObj props => S (list_sum (map (fun kv => S (size (snd kv))) props))
  | _ => 1
  end.

Fixpoint blank (s : string) : bool :=
  match s with
  | EmptyString => true
  | String c r => is_ws c && blank r
  end.

(** The first character of the text of a value is not white space and
    not a closing bracket. *)
Definition starts_value (text : string) : Prop :=
  exists c t, text = String c t /\ is_ws c = false /\ Ascii.eqb "]" c = false.

(** A value reads back at an indent: after white space, and whatever
    follows, the parser with enough fuel returns the value and what
    follows. *)
Definition reads_back (indent : string) (v : jsval Z) : Prop :=
  forall n ws rest,
    blank ws = true -> (size v < n)%nat ->
    exists text, ref_serialize indent v = Some text
                 /\ parse_value n (ws ++ text ++ rest) = Some (v, rest).

Definition sizes (l : list (jsval Z)) : nat := list_sum (map (fun e => S (size e)) l).

Definition item (inner : string) (e : jsval Z) : string :=
  default "null" (ref_serialize inner e).

Definition sizes_props (l : list (string * jsval Z)) : nat :=
  list_sum (map (fun kv => S (size (snd kv))) l).

Definition member (inner : string) (kv : string * jsval Z) : string :=
  quote (fst kv) ++ ": " ++ item inner (snd kv).

Definition member_reads_back (inner : string) (kv : string * jsval Z) : Prop :=
  plain_string (fst kv) = true /\ reads_back inner (snd kv).

Definition reference : Platform := {|
  number := Z;
  number_to_string := pretty;
  engine_message := fun _ prop => "Cannot read or call " ++ prop;
  read_failure := Error "ENOENT: no such file or directory";
  chalk := fun _ text => text;
  JSON_stringify := ref_stringify;
  JSON_parse := ref_parse
|}.

(** * Properties *)

Section Properties.

Context {P : Platform}.

Local Abbreviation value := (jsval number).

(** *** Grids, cell by cell *)

Lemma is_tag_In (s : string) : is_tag s = true <-> In s piece_tags.
Proof.
  unfold is_tag. rewrite existsb_exists. split.
  - intros (t & Ht & E). apply String.eqb_eq in E. now subst.
  - intros H. exists s. split; [assumption | apply String.eqb_refl].
Qed.

Lemma is_row_spec (v : value) :
  is_row v = true <->
  exists cells, v = JArr cells /\ length cells = 8%nat
                /\ Forall (fun c => is_piece c = true) cells.
Proof.
  destruct v; simpl; try (split; [discriminate | intros (? & ? & _); discriminate]).
  rewrite andb_true_iff, Nat.eqb_eq, forallb_forall, <- List.Forall_forall.
  split.
  - intros [? ?]. eauto.
  - intros (cells & E & ? & ?). now inversion E; subst.
Qed.

Lemma is_grid_spec (v : value) :
  is_grid v = true <->
  exists rows, v = JArr rows /\ length rows = 8%nat
               /\ Forall (fun r => is_row r = true) rows.
Proof.
  destruct v; simpl; try (split; [discriminate | intros (? & ? & _); discriminate]).
  rewrite andb_true_iff, Nat.eqb_eq, forallb_forall, <- List.Forall_forall.
  split.
  - intros [? ?]. eauto.
  - intros (rows & E & ? & ?). now inversion E; subst.
Qed.

Lemma coord_ok_spec (c : coord) :
  coord_ok c = true <->
  exists r k, c = (Int r, Int k) /\ 0 <= r <= 7 /\ 0 <= k <= 7.
Proof.
  destruct c as [[r|] [k|]]; simpl;
    try (split; [discriminate | intros (? & ? & E & _); discriminate]).
  rewrite !andb_true_iff, !Z.leb_le. split.
  - intros. exists r, k. intuition lia.
  - intros (r' & k' & E & ? & ?). inversion E; subst. lia.
Qed.

(** Reading a row, then a cell, of a grid. *)
Lemma grid_row (rows : list value) (r : Z) :
  length rows = 8%nat -> Forall (fun x => is_row x = true) rows -> 0 <= r <= 7 ->
  exists cells, rows !! Z.to_nat r = Some (JArr cells)
                /\ length cells = 8%nat
                /\ Forall (fun c => is_piece c = true) cells.
Proof.
  intros Hlen Hrows Hr.
  destruct (lookup_lt_is_Some_2 rows (Z.to_nat r)) as [row Hrow]; [lia |].
  rewrite Forall_lookup in Hrows. specialize (Hrows _ _ Hrow).
  apply is_row_spec in Hrows as (cells & -> & ? & ?). eauto.
Qed.

Lemma row_cell (cells : list value) (k : Z) :
  length cells = 8%nat -> Forall (fun c => is_piece c = true) cells -> 0 <= k <= 7 ->
  exists tag, cells !! Z.to_nat k = Some (JStr tag) /\ is_tag tag = true.
Proof.
  intros Hlen Hcells Hk.
  destruct (lookup_lt_is_Some_2 cells (Z.to_nat k)) as [c Hc]; [lia |].
  rewrite Forall_lookup in Hcells. specialize (Hcells _ _ Hc).
  destruct c; try discriminate. eauto.
Qed.

Lemma grid_cell (b : value) (c : coord) :
  is_grid b = true -> coord_ok c = true ->
  exists tag, cell b c = Ok (JStr tag) /\ is_tag tag = true.
Proof.
  intros Hb Hc.
  apply is_grid_spec in Hb as (rows & -> & Hlen & Hrows).
  apply coord_ok_spec in Hc as (r & k & -> & Hr & Hk).
  destruct (grid_row rows r Hlen Hrows Hr) as (cells & Hrow & Hclen & Hcells).
  destruct (row_cell cells k Hclen Hcells Hk) as (tag & Htag & Hin).
  exists tag. split; [| assumption].
  unfold cell, get_cell; simpl.
  destruct (Z.leb_spec 0 r); [| lia]. rewrite Hrow; simpl.
  destruct (Z.leb_spec 0 k); [| lia]. now rewrite Htag.
Qed.

(** Writing a cell of a grid: the write succeeds, the result is a grid
    of the same shape, the written cell holds the new value and every
    other cell is as before. *)
Lemma set_cell_grid (b : value) (c : coord) (x : value) :
  is_grid b = true -> coord_ok c = true -> is_piece x = true ->
  exists b', set_cell b (fst c) (snd c) x = Ok b'
             /\ is_grid b' = true
             /\ cell b' c = Ok x
             /\ forall c', coord_ok c' = true -> c' <> c -> cell b' c' = cell b c'.
Proof.
  intros Hb Hc Hx.
  apply is_grid_spec in Hb as (rows & -> & Hlen & Hrows).
  apply coord_ok_spec in Hc as (r & k & -> & Hr & Hk).
  destruct (grid_row rows r Hlen Hrows Hr) as (cells & Hrow & Hclen & Hcells).
  exists (JArr (<[Z.to_nat r := JArr (<[Z.to_nat k := x]> cells)]> rows)).
  assert (Hr0 : (0 <=? r) = true) by (apply Z.leb_le; lia).
  assert (Hk0 : (0 <=? k) = true) by (apply Z.leb_le; lia).
  assert (Hrl : (Z.to_nat r <? length rows)%nat = true) by (apply Nat.ltb_lt; lia).
  assert (Hkl : (Z.to_nat k <? length cells)%nat = true) by (apply Nat.ltb_lt; lia).
  repeat split.
  - unfold set_cell; simpl. rewrite Hr0, Hrow; simpl. now rewrite Hk0, Hkl, Hrl.
  - apply is_grid_spec. eexists; split; [reflexivity |].
    rewrite length_insert. split; [assumption |].
    apply Forall_insert; [assumption |].
    apply is_row_spec. eexists; split; [reflexivity |].
    rewrite length_insert. split; [assumption |].
    now apply Forall_insert.
  - unfold cell, get_cell; simpl. rewrite Hr0.
    rewrite list_lookup_insert_eq by lia. simpl. rewrite Hk0.
    now rewrite list_lookup_insert_eq by lia.
  - intros c' Hc' Hne.
    apply coord_ok_spec in Hc' as (r' & k' & -> & Hr' & Hk').
    unfold cell, get_cell; simpl.
    destruct (Z.leb_spec 0 r'); [| lia].
    destruct (decide (r' = r)) as [-> | Hrr].
    + rewrite list_lookup_insert_eq by lia. rewrite Hrow. simpl.
      destruct (Z.leb_spec 0 k'); [| lia].
      rewrite list_lookup_insert_ne; [reflexivity |].
      intros E. apply Z2Nat.inj in E; [| lia | lia]. congruence.
    + rewrite list_lookup_insert_ne; [reflexivity |].
      intros E. apply Z2Nat.inj in E; [| lia | lia]. congruence.
Qed.

(** *** The validator on a grid *)

Lemma cell_pair (b : value) (r k : num) : get_cell b r k = cell b (r, k).
Proof. reflexivity. Qed.

Ltac tag_cases H :=
  apply is_tag_In in H; simpl in H;
  repeat (destruct H as [<- | H]; [| ]); [.. | contradiction].

(** C2: on a grid, for either side to move and coordinates of the grid,
    the validator returns exactly what the four rules of the
    specification give on the source cell, the destination cell and the
    side to move; nothing else of the board enters the result. *)
Theorem isValidMove_spec (b : value) (stm : side) (from to : coord) :
  is_grid b = true -> coord_ok from = true -> coord_ok to = true ->
  exists src dst,
    cell b from = Ok (JStr src) /\ is_tag src = true
    /\ cell b to = Ok (JStr dst) /\ is_tag dst = true
    /\ isValidMove b (side_val stm) from to = Ok (validator_spec stm src dst).
Proof.
  intros Hb Hf Ht.
  destruct (grid_cell b from Hb Hf) as (src & Hsrc & Hs).
  destruct (grid_cell b to Hb Ht) as (dst & Hdst & Hd).
  exists src, dst. repeat split; try assumption.
  destruct from as [fromRow fromCol], to as [toRow toCol].
  unfold isValidMove. rewrite !cell_pair, Hsrc. simpl.
  tag_cases Hs; simpl; destruct stm; simpl; try reflexivity;
    rewrite Hdst; simpl; tag_cases Hd; reflexivity.
Qed.

(** *** Computations that leave the game state alone *)

Lemma same_game_refl (w : world) : same_game w w.
Proof. now repeat split. Qed.

Lemma same_game_trans (w1 w2 w3 : world) :
  same_game w1 w2 -> same_game w2 w3 -> same_game w1 w3.
Proof. unfold same_game. intuition congruence. Qed.

Lemma keeps_bind {A B} (m : M A) (k : A -> M B) :
  keeps m -> (forall a, keeps (k a)) -> keeps (mbind k m).
Proof.
  intros Hm Hk w. unfold mbind, M_bind. specialize (Hm w).
  destruct (m w) as [[a | e] w']; simpl in *; [| assumption].
  eapply same_game_trans; [eassumption | apply Hk].
Qed.

Lemma keeps_lift {A} (r : result A) : keeps (lift r).
Proof. intros w. apply same_game_refl. Qed.

Lemma keeps_ret {A} (a : A) : keeps (mret a).
Proof. intros w. apply same_game_refl. Qed.

Lemma keeps_console_log (line : string) : keeps (console_log line).
Proof. intros w. now repeat split. Qed.

Lemma keeps_get_board : keeps get_board.
Proof. intros w. apply same_game_refl. Qed.

Lemma keeps_get_currentPlayer : keeps get_currentPlayer.
Proof. intros w. apply same_game_refl. Qed.

Lemma keeps_for_each {A} (l : list A) (body : A -> M unit) :
  (forall a, keeps (body a)) -> keeps (for_each l body).
Proof.
  intros Hbody. induction l as [| a l IH]; simpl.
  - apply keeps_ret.
  - apply keeps_bind; [apply Hbody | intros _; apply IH].
Qed.

Lemma keeps_try_catch {A} (body : M A) (handler : exn -> M A) :
  keeps body -> (forall e, keeps (handler e)) -> keeps (try_catch body handler).
Proof.
  intros Hb Hh w. unfold try_catch. specialize (Hb w).
  destruct (body w) as [[a | e] w']; simpl in *; [assumption |].
  eapply same_game_trans; [eassumption | apply Hh].
Qed.

Create HintDb keeps.
#[local] Hint Resolve keeps_lift keeps_ret keeps_console_log keeps_get_board
  keeps_get_currentPlayer : keeps.

Ltac keeps_tac :=
  repeat first
    [ apply keeps_bind; [| intros ?]
    | apply keeps_for_each; intros ?
    | solve [auto with keeps] ].

(** Printing the board never touches the game state, whether or not it
    runs to its end. *)
Lemma keeps_displayBoard : keeps displayBoard.
Proof. unfold displayBoard. keeps_tac. Qed.

(** *** Printing a grid *)

Lemma cell_text_grid (b : value) (i j : Z) :
  is_grid b = true -> 0 <= i <= 7 -> 0 <= j <= 7 ->
  exists t, cell_text b i j = Ok t.
Proof.
  intros Hb Hi Hj.
  destruct (grid_cell b (Int i, Int j) Hb) as (tag & Hc & Ht).
  { apply coord_ok_spec. eauto. }
  unfold cell_text. rewrite cell_pair, Hc. simpl.
  destruct (String.eqb tag "."); eauto.
Qed.

Lemma row_text_grid (b : value) (i : Z) (js : list Z) (row : string) :
  is_grid b = true -> 0 <= i <= 7 -> Forall (fun j => 0 <= j <= 7) js ->
  exists t, row_text b i js row = Ok t.
Proof.
  intros Hb Hi Hjs. revert row.
  induction Hjs as [| j js Hj _ IH]; intros row; simpl; [eauto |].
  destruct (cell_text_grid b i j Hb Hi Hj) as (t & ->). simpl. apply IH.
Qed.

Lemma indices_ok : Forall (fun j => 0 <= j <= 7) indices.
Proof. repeat constructor; lia. Qed.

Lemma display_rows_grid (w : world) (ixs : list Z) :
  is_grid (board w) = true -> Forall (fun i => 0 <= i <= 7) ixs ->
  exists lines,
    for_each ixs (fun i =>
      b ← get_board;
      row ← lift (row_text b i indices (pretty (8 - i) ++ " "));
      console_log (row ++ pretty (8 - i))) w
    = (Ok tt, add_lines lines w).
Proof.
  intros Hb His. revert w Hb.
  induction His as [| i ixs Hi _ IH]; intros w Hb; cbn [for_each].
  - exists []. unfold add_lines, mret, M_ret. rewrite app_nil_r. now destruct w.
  - unfold mbind at 1, M_bind at 1.
    destruct (row_text_grid (board w) i indices (pretty (8 - i) ++ " ") Hb Hi indices_ok)
      as (t & Ht).
    unfold mbind at 1, M_bind at 1, get_board at 1.
    unfold mbind at 1, M_bind at 1, lift at 1. rewrite Ht.
    unfold console_log at 1.
    match goal with |- context [for_each ixs ?f ?w'] =>
      destruct (IH w') as (lines & ->); [exact Hb |] end.
    eexists (_ :: lines). unfold add_lines; simpl. now rewrite <- app_assoc.
Qed.

(** On a grid with a side to move, printing the board runs to its end
    and only adds lines to the console. *)
Lemma displayBoard_grid (w : world) :
  is_grid (board w) = true -> is_side (currentPlayer w) = true ->
  exists lines, displayBoard w = (Ok tt, add_lines lines w).
Proof.
  intros Hb Hp. unfold displayBoard.
  unfold mbind at 1, M_bind at 1, console_log at 1.
  unfold mbind at 1, M_bind at 1.
  match goal with |- context [for_each indices ?f ?w'] =>
    destruct (display_rows_grid w' indices Hb indices_ok) as (lines & ->) end.
  unfold mbind, M_bind, console_log, get_currentPlayer, lift; simpl.
  destruct (currentPlayer w) as [| | | | s | |] eqn:E; try discriminate. simpl.
  eexists (_ :: lines ++ [_; _]). unfold add_lines; simpl.
  rewrite E. f_equal. f_equal. rewrite <- !app_assoc. reflexivity.
Qed.

(** *** Moves *)

(** A move from a square to itself is never approved, whatever the
    board holds. *)
Lemma self_move_never_valid (b p : value) (c : coord) :
  isValidMove b p c c <> Ok true.
Proof.
  destruct c as [r k]. unfold isValidMove.
  destruct (get_cell b r k) as [piece | e]; simpl; [| discriminate].
  destruct (strict_eq_string piece ".") eqn:E; [discriminate |].
  destruct (is_upper piece) as [u | e]; simpl; [| discriminate].
  destruct (_ || _); [discriminate |].
  rewrite Bool.eqb_reflx. discriminate.
Qed.

Lemma makeMove_unfold (move : string) (w : world) :
  makeMove move w =
  match parseMove move with
  | Throw e => console_log (chalk Red (message_of e)) w
  | Ok mv =>
      match isValidMove (board w) (currentPlayer w) (from mv) (to mv) with
      | Throw e => console_log (chalk Red (message_of e)) w
      | Ok false => console_log invalid_move_line w
      | Ok true =>
          try_catch
            (applyMove (from mv) (to mv);;
             console_log (chalk Green "Move successful!");;
             displayBoard)
            (fun error => console_log (chalk Red (message_of error))) w
      end
  end.
Proof.
  unfold makeMove, try_catch, mbind, M_bind, lift, get_board, get_currentPlayer.
  destruct (parseMove move) as [mv | e]; [| reflexivity].
  destruct (isValidMove _ _ _ _) as [[|] | e]; reflexivity.
Qed.

Lemma add_lines_add_lines (l1 l2 : list string) (w : world) :
  add_lines l2 (add_lines l1 w) = add_lines (l1 ++ l2) w.
Proof. unfold add_lines; simpl. now rewrite app_assoc. Qed.

(** C3: a move the validator approved, applied to a game state: the
    application succeeds; afterwards the destination cell holds the piece
    the source cell held, the source cell is empty, the side to move is
    the opposite one, every other cell is as before, and the board is
    still a grid; the move command as a whole succeeds too and adds only
    console lines to that state. *)
Theorem applyMove_effect (w : world) (stm : side) (from to : coord) :
  is_grid (board w) = true -> currentPlayer w = side_val stm ->
  coord_ok from = true -> coord_ok to = true ->
  isValidMove (board w) (currentPlayer w) from to = Ok true ->
  exists w',
    applyMove from to w = (Ok tt, w')
    /\ cell (board w') to = cell (board w) from
    /\ cell (board w') from = Ok (JStr ".")
    /\ currentPlayer w' = side_val (opposite stm)
    /\ (forall c, coord_ok c = true -> c <> from -> c <> to ->
                  cell (board w') c = cell (board w) c)
    /\ is_grid (board w') = true
    /\ file w' = file w /\ console w' = console w
    /\ forall move, parseMove move = Ok {| from := from; to := to |} ->
         exists lines, makeMove move w = (Ok tt, add_lines lines w').
Proof.
  intros Hb Hp Hf Ht Hv.
  assert (Hne : from <> to).
  { intros ->. now apply self_move_never_valid in Hv. }
  destruct (grid_cell (board w) from Hb Hf) as (src & Hsrc & Hs).
  destruct (set_cell_grid (board w) to (JStr src) Hb Ht Hs)
    as (b1 & Hset1 & Hg1 & Hto1 & Hother1).
  destruct (set_cell_grid b1 from (JStr ".") Hg1 Hf eq_refl)
    as (b2 & Hset2 & Hg2 & Hfrom2 & Hother2).
  set (w' := {| board := b2; currentPlayer := side_val (opposite stm);
                file := file w; console := console w |}).
  assert (Happly : applyMove from to w = (Ok tt, w')).
  { destruct from as [fromRow fromCol], to as [toRow toCol].
    unfold applyMove, mbind, M_bind, get_board, lift, set_board,
      get_currentPlayer, set_currentPlayer.
    simpl in Hset1, Hset2. rewrite cell_pair, Hsrc, Hset1. simpl.
    rewrite Hset2. simpl. rewrite Hp. unfold w'. now destruct stm. }
  exists w'. split; [exact Happly |].
  split; [ simpl; rewrite Hsrc, Hother2; auto |].
  split; [exact Hfrom2 |].
  split; [reflexivity |].
  split.
  { intros c Hc Hcf Hct. simpl. rewrite Hother2, Hother1; auto. }
  split; [exact Hg2 |].
  split; [reflexivity |].
  split; [reflexivity |].
  intros move Hparse. rewrite makeMove_unfold, Hparse. simpl. rewrite Hv.
  unfold try_catch, mbind, M_bind. rewrite Happly.
  unfold console_log at 1. cbn [board currentPlayer file console].
  match goal with |- context [displayBoard ?w1] =>
    destruct (displayBoard_grid w1) as (lines & ->); [exact Hg2 | now destruct stm |] end.
  exists (chalk Green "Move successful!" :: lines).
  unfold add_lines; simpl. now rewrite <- app_assoc.
Qed.

Lemma makeMove_invalid (w : world) (move : string) (mv : Move) :
  parseMove move = Ok mv ->
  isValidMove (board w) (currentPlayer w) (from mv) (to mv) = Ok false ->
  makeMove move w = (Ok tt, add_line invalid_move_line w).
Proof. intros Hparse Hv. rewrite makeMove_unfold, Hparse, Hv. reflexivity. Qed.

(** C4: a move command whose notation parses and whose move the
    validator rejects prints the failure line and leaves the board, the
    side to move and the save file exactly as they were. *)
Theorem makeMove_rejected (w : world) (move : string) (mv : Move) :
  parseMove move = Ok mv ->
  isValidMove (board w) (currentPlayer w) (from mv) (to mv) = Ok false ->
  makeMove move w = (Ok tt, add_line invalid_move_line w)
  /\ board (snd (makeMove move w)) = board w
  /\ currentPlayer (snd (makeMove move w)) = currentPlayer w
  /\ file (snd (makeMove move w)) = file w
  /\ console (snd (makeMove move w)) = (console w ++ [chalk Red "Invalid move!"])%list.
Proof.
  intros Hparse Hv.
  rewrite (makeMove_invalid w move mv Hparse Hv). repeat split.
Qed.

(** C10: on every grid, for every value of the side to move and every
    coordinate of the grid, the validator rejects the move from the
    coordinate to itself, and a move command with that move leaves the game
    state as it was. *)
Theorem self_move_rejected (w : world) (c : coord) :
  is_grid (board w) = true -> coord_ok c = true ->
  isValidMove (board w) (currentPlayer w) c c = Ok false
  /\ forall move, parseMove move = Ok {| from := c; to := c |} ->
       makeMove move w = (Ok tt, add_line invalid_move_line w).
Proof.
  intros Hb Hc.
  assert (Hv : isValidMove (board w) (currentPlayer w) c c = Ok false).
  { destruct (grid_cell (board w) c Hb Hc) as (tag & Hcell & Htag).
    pose proof (self_move_never_valid (board w) (currentPlayer w) c) as Hnever.
    destruct c as [r k]. unfold isValidMove in *.
    rewrite !cell_pair, Hcell in *. simpl in *.
    destruct (String.eqb tag "."); [reflexivity |].
    destruct (_ || _); [reflexivity |].
    destruct (negb _); [now contradiction Hnever | reflexivity]. }
  split; [exact Hv |].
  intros move Hparse. now apply (makeMove_invalid w move _ Hparse).
Qed.

(** *** The move parser *)

Lemma in_range_file (c : ascii) :
  in_range {| range_lo := "a"; range_hi := "h" |} c = true <-> is_file c.
Proof.
  unfold in_range, is_file, code. cbn [range_lo range_hi].
  rewrite andb_true_iff, !Nat.leb_le.
  change (nat_of_ascii "a") with 97%nat. change (nat_of_ascii "h") with 104%nat.
  lia.
Qed.

Lemma in_range_rank (c : ascii) :
  in_range {| range_lo := "1"; range_hi := "8" |} c = true <-> is_rank c.
Proof.
  unfold in_range, is_rank, code. cbn [range_lo range_hi].
  rewrite andb_true_iff, !Nat.leb_le.
  change (nat_of_ascii "1") with 49%nat. change (nat_of_ascii "8") with 56%nat.
  lia.
Qed.

Lemma regex_test_move_pattern (s : string) :
  regex_test move_pattern s = true <-> well_formed_notation s.
Proof.
  unfold well_formed_notation, notation_of. split.
  - destruct s as [| f1 [| r1 [| f2 [| r2 [| ? ?]]]]]; simpl;
      try discriminate; try (rewrite ?andb_false_r; discriminate).
    rewrite andb_true_r, !andb_true_iff.
    rewrite !in_range_file, !in_range_rank.
    intros (? & ? & ? & ?). exists f1, r1, f2, r2. auto.
  - intros (f1 & r1 & f2 & r2 & -> & H1 & H2 & H3 & H4).
    cbn [regex_test move_pattern].
    apply in_range_file in H1, H3. apply in_range_rank in H2, H4.
    now rewrite H1, H2, H3, H4.
Qed.

Lemma rank_is_digit (c : ascii) : is_rank c -> is_digit c = true.
Proof.
  unfold is_rank, is_digit, code.
  change (nat_of_ascii "1") with 49%nat. change (nat_of_ascii "8") with 56%nat.
  intros ?. apply andb_true_iff. rewrite !Z.leb_le. lia.
Qed.

Lemma parseMove_well_formed (f1 r1 f2 r2 : ascii) :
  is_file f1 -> is_rank r1 -> is_file f2 -> is_rank r2 ->
  parseMove (notation_of f1 r1 f2 r2)
  = Ok {| from := square f1 r1; to := square f2 r2 |}.
Proof.
  intros H1 H2 H3 H4. unfold parseMove.
  replace (regex_test move_pattern (notation_of f1 r1 f2 r2)) with true
    by (symmetry; apply regex_test_move_pattern; unfold well_formed_notation; eauto 10).
  cbn [negb]. unfold notation_of, square, charCodeAt, parseInt_at, code.
  cbn [String.get]. rewrite (rank_is_digit r1 H2), (rank_is_digit r2 H4).
  reflexivity.
Qed.

(** C6: the parser succeeds exactly on the four-character strings file,
    rank, file, rank; on success the coordinates are row = 8 - rank and
    column = file - 'a'; on every other string it throws the format error,
    whose message names the notation e2e4. *)
Theorem parseMove_spec (s : string) :
  (well_formed_notation s <-> exists mv, parseMove s = Ok mv)
  /\ (forall f1 r1 f2 r2,
        s = notation_of f1 r1 f2 r2 ->
        is_file f1 -> is_rank r1 -> is_file f2 -> is_rank r2 ->
        parseMove s = Ok {| from := square f1 r1; to := square f2 r2 |})
  /\ (~ well_formed_notation s -> parseMove s = Throw (Error invalid_format_message))
  /\ mentions "e2e4" invalid_format_message
  /\ parseMove "e2e4" = Ok {| from := (Int 6, Int 4); to := (Int 4, Int 4) |}
  /\ parseMove "a1h8" = Ok {| from := (Int 7, Int 0); to := (Int 0, Int 7) |}
  /\ parseMove "i9i9" = Throw (Error invalid_format_message)
  /\ parseMove "e2e9" = Throw (Error invalid_format_message).
Proof.
  split; [| split; [| split; [| split; [| repeat split]]]].
  - split.
    + intros (f1 & r1 & f2 & r2 & -> & H1 & H2 & H3 & H4).
      eexists. now apply parseMove_well_formed.
    + intros (mv & Hmv). apply regex_test_move_pattern.
      unfold parseMove in Hmv.
      destruct (regex_test move_pattern s); [reflexivity | discriminate].
  - intros f1 r1 f2 r2 -> H1 H2 H3 H4. now apply parseMove_well_formed.
  - intros Hnot. unfold parseMove.
    destruct (regex_test move_pattern s) eqn:E; [| reflexivity].
    now apply regex_test_move_pattern in E.
  - eexists. vm_compute. reflexivity.
Qed.

(** The squares of well-formed notation are coordinates of the grid. *)
Lemma square_ok (f r : ascii) : is_file f -> is_rank r -> coord_ok (square f r) = true.
Proof.
  unfold is_file, is_rank, square, code.
  change (nat_of_ascii "a") with 97%nat. change (nat_of_ascii "h") with 104%nat.
  change (nat_of_ascii "1") with 49%nat. change (nat_of_ascii "8") with 56%nat.
  change (nat_of_ascii "0") with 48%nat.
  intros Hf Hr. apply coord_ok_spec. eexists _, _. split; [reflexivity |]. lia.
Qed.

Lemma parseMove_coords (move : string) (mv : Move) :
  parseMove move = Ok mv -> coord_ok (from mv) = true /\ coord_ok (to mv) = true.
Proof.
  intros Hparse.
  assert (Hwf : well_formed_notation move).
  { apply regex_test_move_pattern. unfold parseMove in Hparse.
    destruct (regex_test move_pattern move); [reflexivity | discriminate]. }
  destruct Hwf as (f1 & r1 & f2 & r2 & -> & H1 & H2 & H3 & H4).
  rewrite parseMove_well_formed in Hparse by assumption.
  injection Hparse as <-. simpl. split; now apply square_ok.
Qed.

(** *** Bounds *)

Lemma grid_in_bounds (b : value) (c : coord) :
  is_grid b = true -> coord_ok c = true -> in_bounds b c.
Proof.
  intros Hb Hc.
  apply is_grid_spec in Hb as (rows & -> & Hlen & Hrows).
  apply coord_ok_spec in Hc as (r & k & -> & Hr & Hk).
  destruct (grid_row rows r Hlen Hrows Hr) as (cells & Hrow & Hclen & _).
  exists rows, cells, r, k. repeat split; try assumption; lia.
Qed.

(** On a grid the validator answers, whatever the side to move holds. *)
Lemma isValidMove_grid_total (b p : value) (from to : coord) :
  is_grid b = true -> coord_ok from = true -> coord_ok to = true ->
  exists v, isValidMove b p from to = Ok v.
Proof.
  intros Hb Hf Ht.
  destruct (grid_cell b from Hb Hf) as (src & Hsrc & _).
  destruct (grid_cell b to Hb Ht) as (dst & Hdst & _).
  destruct from as [fromRow fromCol], to as [toRow toCol].
  unfold isValidMove. rewrite !cell_pair, Hsrc, Hdst. simpl.
  destruct (String.eqb src "."); [eauto |].
  destruct (_ || _); [eauto |].
  destruct (String.eqb dst "."); eauto.
Qed.

(** An approved move applied to a grid, for any value of the side to
    move: the application succeeds and leaves a grid and a side. *)
Lemma applyMove_grid (w : world) (from to : coord) :
  is_grid (board w) = true -> coord_ok from = true -> coord_ok to = true ->
  exists w',
    applyMove from to w = (Ok tt, w')
    /\ is_grid (board w') = true /\ is_side (currentPlayer w') = true
    /\ file w' = file w.
Proof.
  intros Hb Hf Ht.
  destruct (grid_cell (board w) from Hb Hf) as (src & Hsrc & Hs).
  destruct (set_cell_grid (board w) to (JStr src) Hb Ht Hs) as (b1 & Hset1 & Hg1 & _).
  destruct (set_cell_grid b1 from (JStr ".") Hg1 Hf eq_refl) as (b2 & Hset2 & Hg2 & _).
  destruct from as [fromRow fromCol], to as [toRow toCol].
  unfold applyMove, mbind, M_bind, get_board, lift, set_board,
    get_currentPlayer, set_currentPlayer.
  simpl in Hset1, Hset2. rewrite cell_pair, Hsrc, Hset1. simpl. rewrite Hset2. simpl.
  eexists. split; [reflexivity |]. simpl. repeat split; [assumption |].
  now destruct (strict_eq_string (currentPlayer w) "white").
Qed.

Lemma keeps_after {A B} (m : M A) (k : A -> M B) (w w1 : world) (a : A) :
  m w = (Ok a, w1) -> keeps (k a) -> same_game w1 (snd (mbind k m w)).
Proof. intros E Hk. unfold mbind, M_bind. rewrite E. apply Hk. Qed.

(** After an approved move the game state is the one the application
    left, whether or not the board then prints to its end. *)
Lemma makeMove_approved (w w' : world) (move : string) (mv : Move) :
  parseMove move = Ok mv ->
  isValidMove (board w) (currentPlayer w) (from mv) (to mv) = Ok true ->
  applyMove (from mv) (to mv) w = (Ok tt, w') ->
  same_game w' (snd (makeMove move w)).
Proof.
  intros Hparse Hv Happly. rewrite makeMove_unfold, Hparse, Hv.
  unfold try_catch. unfold mbind at 1, M_bind at 1. rewrite Happly.
  pose proof (keeps_bind (console_log (chalk Green "Move successful!"))
                (fun _ => displayBoard) (keeps_console_log _)
                (fun _ => keeps_displayBoard) w') as Hk.
  destruct ((console_log (chalk Green "Move successful!");; displayBoard) w')
    as [[u | e] w2]; simpl in *; [exact Hk |].
  destruct Hk as (E1 & E2 & E3). now repeat split.
Qed.

(** A move command on a grid leaves a grid; the side to move stays a
    side and the save file is not touched. *)
Lemma makeMove_grid (w : world) (move : string) :
  is_grid (board w) = true ->
  is_grid (board (snd (makeMove move w))) = true
  /\ (is_side (currentPlayer w) = true ->
      is_side (currentPlayer (snd (makeMove move w))) = true)
  /\ file (snd (makeMove move w)) = file w.
Proof.
  intros Hb.
  destruct (parseMove move) as [mv | e] eqn:Hparse.
  2:{ rewrite makeMove_unfold, Hparse. now repeat split. }
  destruct (parseMove_coords move mv Hparse) as [Hf Ht].
  destruct (isValidMove (board w) (currentPlayer w) (from mv) (to mv))
    as [[|] | e] eqn:Hv.
  2,3: rewrite makeMove_unfold, Hparse, Hv; now repeat split.
  destruct (applyMove_grid w (from mv) (to mv) Hb Hf Ht) as (w' & Happly & Hg & Hs & Hfile).
  destruct (makeMove_approved w w' move mv Hparse Hv Happly) as (E1 & E2 & E3).
  rewrite E1, E2, E3. auto.
Qed.

(** C7: the coordinates of a parsed move have row and column in 0..7;
    on every grid they land on cells of the grid, the validator answers
    without an exception, and the move command leaves a grid of the same
    shape, so that no access of the validator or the applicator falls
    outside the grid. *)
Theorem parsed_move_in_bounds (move : string) (mv : Move) :
  parseMove move = Ok mv ->
  coord_ok (from mv) = true /\ coord_ok (to mv) = true
  /\ forall w, is_grid (board w) = true ->
       in_bounds (board w) (from mv) /\ in_bounds (board w) (to mv)
       /\ (exists src dst, cell (board w) (from mv) = Ok (JStr src) /\ is_tag src = true
                           /\ cell (board w) (to mv) = Ok (JStr dst) /\ is_tag dst = true)
       /\ (exists v, isValidMove (board w) (currentPlayer w) (from mv) (to mv) = Ok v)
       /\ (forall x, is_piece x = true ->
             exists b1, set_cell (board w) (fst (to mv)) (snd (to mv)) x = Ok b1
                        /\ is_grid b1 = true /\ in_bounds b1 (from mv))
       /\ is_grid (board (snd (makeMove move w))) = true.
Proof.
  intros Hparse. destruct (parseMove_coords move mv Hparse) as [Hf Ht].
  split; [exact Hf |]. split; [exact Ht |].
  intros w Hb.
  split; [now apply grid_in_bounds |].
  split; [now apply grid_in_bounds |].
  split.
  { destruct (grid_cell (board w) (from mv) Hb Hf) as (src & ? & ?).
    destruct (grid_cell (board w) (to mv) Hb Ht) as (dst & ? & ?).
    exists src, dst. auto. }
  split; [now apply isValidMove_grid_total |].
  split.
  { intros x Hx.
    destruct (set_cell_grid (board w) (to mv) x Hb Ht Hx) as (b1 & ? & Hg1 & _).
    exists b1. repeat split; try assumption. now apply grid_in_bounds. }
  now apply makeMove_grid.
Qed.

(** *** The initial state *)

(** C8: at process start the board is the canonical starting position
    (black back rank and pawns on rows 0 and 1, white pawns and back rank on
    rows 6 and 7, back ranks in the order rook, knight, bishop, queen, king,
    bishop, knight, rook, every other cell empty) and white is to move. *)
Theorem initial_position (f : option string) :
  board (initial_world f) = standard_position
  /\ currentPlayer (initial_world f) = side_val WhiteSide
  /\ is_grid (board (initial_world f)) = true
  /\ forall c : command, main c f = run_command c (initial_world f).
Proof. repeat split. Qed.

(** *** Persistence *)

Lemma saveGame_unfold (w : world) :
  saveGame w =
  (Ok tt, {| board := board w; currentPlayer := currentPlayer w;
             file := Some (JSON_stringify (snapshot (board w) (currentPlayer w)));
             console := (console w ++ [chalk Green "Game saved successfully!"])%list |}).
Proof. reflexivity. Qed.

Lemma loadGame_unfold (w : world) :
  loadGame w =
  match file w with
  | None => (Ok tt, add_line no_saved_game_line w)
  | Some data =>
      match JSON_parse data with
      | Throw _ => (Ok tt, add_line no_saved_game_line w)
      | Ok state =>
          match get_named state "board", get_named state "currentPlayer" with
          | Ok b, Ok p =>
              (Ok tt, add_line (chalk Green "Game loaded successfully!")
                        {| board := b; currentPlayer := p;
                           file := file w; console := console w |})
          | _, _ => (Ok tt, add_line no_saved_game_line w)
          end
      end
  end.
Proof.
  unfold loadGame, try_catch, mbind, M_bind, readFile, lift.
  destruct (file w) as [data |] eqn:Hfile; [| reflexivity].
  destruct (JSON_parse data) as [state | e]; [| reflexivity].
  destruct state; simpl; rewrite ?Hfile; reflexivity.
Qed.

(** The load never throws. *)
Lemma loadGame_returns (w : world) : fst (loadGame w) = Ok tt.
Proof.
  rewrite loadGame_unfold.
  destruct (file w) as [data |]; [| reflexivity].
  destruct (JSON_parse data) as [state | e]; [| reflexivity].
  destruct (get_named state "board"), (get_named state "currentPlayer"); reflexivity.
Qed.

Lemma loadGame_fails (w : world) :
  load_fails (file w) -> loadGame w = (Ok tt, add_line no_saved_game_line w).
Proof.
  intros [Hnone | (data & Hsome & [(e & Hparse) | (state & e & Hparse & Hget)])];
    rewrite loadGame_unfold.
  - now rewrite Hnone.
  - now rewrite Hsome, Hparse.
  - now rewrite Hsome, Hparse, Hget.
Qed.

(** The failures the code catches are failures in the specification's
    sense; the converse does not hold (see the load of an empty object on
    the reference platform). *)
Lemma load_fails_malformed (f : option string) :
  load_fails f -> absent_or_malformed f.
Proof.
  intros [-> | (data & -> & [(e & Hparse) | (state & e & Hparse & Hget)])];
    simpl; [exact I | |];
    intros (state' & b & p & Hparse' & Hb & _); congruence.
Qed.

Lemma load_fails_falls_back (f : option string) : load_fails f -> falls_back f.
Proof. intros H. unfold falls_back. now apply loadGame_fails. Qed.

(** C1, as amended: when the save file cannot be read, its text is not
    JSON, or the value parsed is [null], [loadGame] returns normally,
    leaves the game state as it was and prints the line that no saved game
    was found; the state it leaves in a run of the [load] command is the
    state of process start, the standard position with white to move.
    Whatever the file holds, [loadGame] returns without an exception.
    Content that is JSON but holds no game state is malformed for the
    specification and no failure for the code: the statement does not
    cover it. *)
Theorem load_failure_falls_back (f : option string) :
  load_fails f ->
  (forall w, file w = f -> loadGame w = (Ok tt, add_line no_saved_game_line w))
  /\ (exists lines,
        main CmdLoad f = (Ok tt, add_lines (no_saved_game_line :: lines) (initial_world f)))
  /\ board (initial_world f) = standard_position
  /\ currentPlayer (initial_world f) = side_val WhiteSide
  /\ forall w, fst (loadGame w) = Ok tt.
Proof.
  intros Hfail.
  assert (Hload : forall w, file w = f ->
            loadGame w = (Ok tt, add_line no_saved_game_line w)).
  { intros w <-. now apply loadGame_fails. }
  split; [exact Hload |].
  split.
  { unfold main, run_command, mbind, M_bind. rewrite Hload by reflexivity.
    destruct (displayBoard_grid (add_line no_saved_game_line (initial_world f)))
      as (lines & ->); [reflexivity | reflexivity |].
    exists lines. unfold add_line. now rewrite add_lines_add_lines. }
  split; [reflexivity |]. split; [reflexivity |].
  apply loadGame_returns.
Qed.

Lemma loadGame_saved (w : world) (b p : value) :
  json_faithful -> is_grid b = true -> is_side p = true ->
  file w = Some (JSON_stringify (snapshot b p)) ->
  loadGame w =
  (Ok tt, add_line (chalk Green "Game loaded successfully!")
            {| board := b; currentPlayer := p;
               file := file w; console := console w |}).
Proof.
  intros Hjson Hb Hp Hfile.
  rewrite loadGame_unfold, Hfile, (Hjson b p Hb Hp). reflexivity.
Qed.

(** C5: on a platform whose [JSON] reads back the text of a game state,
    save, then load (in the same process or in a later one that finds the
    file): the board is the saved grid, cell for cell, and the side to move
    is the saved one. *)
Theorem save_load_roundtrip (w w2 : world) :
  json_faithful ->
  is_grid (board w) = true -> is_side (currentPlayer w) = true ->
  file w2 = file (snd (saveGame w)) ->
  fst (saveGame w) = Ok tt
  /\ fst (loadGame w2) = Ok tt
  /\ board (snd (loadGame w2)) = board w
  /\ currentPlayer (snd (loadGame w2)) = currentPlayer w
  /\ forall c, cell (board (snd (loadGame w2))) c = cell (board w) c.
Proof.
  intros Hjson Hb Hp Hfile. rewrite saveGame_unfold in Hfile. simpl in Hfile.
  rewrite (loadGame_saved w2 (board w) (currentPlayer w) Hjson Hb Hp Hfile).
  repeat split.
Qed.

(** *** The board invariant *)

Lemma loadGame_grid (w : world) :
  json_faithful -> is_grid (board w) = true -> is_side (currentPlayer w) = true ->
  file_ok (file w) ->
  is_grid (board (snd (loadGame w))) = true
  /\ is_side (currentPlayer (snd (loadGame w))) = true
  /\ file (snd (loadGame w)) = file w.
Proof.
  intros Hjson Hb Hp [Hfail | (b & p & Hgb & Hsp & Hfile)].
  - rewrite (loadGame_fails w Hfail). auto.
  - rewrite (loadGame_saved w b p Hjson Hgb Hsp Hfile). auto.
Qed.

Lemma run_command_invariant (c : command) (w : world) :
  json_faithful -> invariant w -> invariant (snd (run_command c w)).
Proof.
  intros Hjson (Hb & Hp & Hf). unfold invariant.
  destruct c as [move | | |]; cbn [run_command].
  - destruct (makeMove_grid w move Hb) as (? & Hside & ->). split; auto.
  - destruct (keeps_displayBoard w) as (-> & -> & ->). now split.
  - rewrite saveGame_unfold. simpl. repeat split; try assumption.
    right. exists (board w), (currentPlayer w). auto.
  - destruct (loadGame_grid w Hjson Hb Hp Hf) as (Hb1 & Hp1 & Hf1).
    pose proof (loadGame_returns w) as Hret.
    unfold mbind, M_bind. destruct (loadGame w) as [[[] | e] w1]; simpl in *;
      [| discriminate].
    destruct (keeps_displayBoard w1) as (-> & -> & ->).
    rewrite Hf1. now split.
Qed.

Lemma initial_invariant (f : option string) : file_ok f -> invariant (initial_world f).
Proof. intros Hf. now split. Qed.

Lemma reachable_file_ok (f : option string) :
  json_faithful -> reachable_file f -> file_ok f.
Proof.
  intros Hjson Hreach. induction Hreach as [f Hf | c f _ IH]; [exact Hf |].
  apply (run_command_invariant c (initial_world f) Hjson).
  now apply initial_invariant.
Qed.

Lemma reachable_invariant (w : world) :
  json_faithful -> reachable w -> invariant w.
Proof.
  intros Hjson [f Hf | c f Hf].
  - apply initial_invariant. now apply reachable_file_ok.
  - apply run_command_invariant; [exact Hjson |].
    apply initial_invariant. now apply reachable_file_ok.
Qed.

(** C9: on a platform whose [JSON] reads back the text of a game state,
    the board is a grid of eight rows of eight piece tags in the initial
    state, a move command keeps it one, a load keeps it one when the save
    file is a saved game or the load fails, and so in every world the
    program reaches, starting beside such a file, the board is a grid, the
    side to move is a side and the save file is such a file again. *)
Theorem board_invariant_preserved :
  json_faithful ->
  is_grid initial_board = true
  /\ (forall w move, is_grid (board w) = true ->
                     is_grid (board (snd (makeMove move w))) = true)
  /\ (forall w, is_grid (board w) = true -> is_side (currentPlayer w) = true ->
                file_ok (file w) ->
                is_grid (board (snd (loadGame w))) = true)
  /\ (forall w, reachable w ->
                is_grid (board w) = true /\ is_side (currentPlayer w) = true
                /\ file_ok (file w)).
Proof.
  intros Hjson. split; [reflexivity |].
  split; [intros w move Hb; now apply makeMove_grid |].
  split; [intros w Hb Hp Hf; now apply loadGame_grid |].
  intros w Hreach. exact (reachable_invariant w Hjson Hreach).
Qed.

End Properties.

(** * The reference platform reads back what it writes *)

Lemma append_cons (c : ascii) (s t : string) : String c s ++ t = String c (s ++ t).
Proof. reflexivity. Qed.

Lemma append_nil_l (t : string) : EmptyString ++ t = t.
Proof. reflexivity. Qed.

Lemma append_nil_r (s : string) : s ++ EmptyString = s.
Proof.
  induction s as [| c s IH]; [reflexivity |].
  now rewrite append_cons, IH.
Qed.

Lemma append_assoc (a b c : string) : (a ++ b) ++ c = a ++ (b ++ c).
Proof.
  induction a as [| x a IH]; [reflexivity |].
  now rewrite !append_cons, IH.
Qed.

Lemma length_append (a b : string) :
  String.length (a ++ b) = (String.length a + String.length b)%nat.
Proof.
  induction a as [| x a IH]; [reflexivity |].
  rewrite append_cons. simpl. now rewrite IH.
Qed.

Ltac norm_str :=
  repeat first [rewrite append_assoc | rewrite append_cons | rewrite append_nil_l].

Lemma blank_append (a b : string) : blank (a ++ b) = blank a && blank b.
Proof.
  induction a as [| x a IH]; [reflexivity |].
  rewrite append_cons. simpl. now rewrite IH, andb_assoc.
Qed.

Lemma skip_ws_blank (ws s : string) : blank ws = true -> skip_ws (ws ++ s) = skip_ws s.
Proof.
  induction ws as [| c ws IH]; [reflexivity |].
  rewrite append_cons. simpl.
  intros H. apply andb_true_iff in H as [Hc Hws]. rewrite Hc. now apply IH.
Qed.

Lemma skip_ws_head (c : ascii) (s : string) :
  is_ws c = false -> skip_ws (String c s) = String c s.
Proof. intros H. simpl. now rewrite H. Qed.

(** Strings *)

Lemma plain_char_spec (c : ascii) :
  plain_char c = true ->
  (nat_of_ascii c <? 32)%nat = false
  /\ Ascii.eqb c dquote = false /\ Ascii.eqb c backslash = false.
Proof.
  unfold plain_char. rewrite !andb_true_iff, !negb_true_iff. tauto.
Qed.

Lemma escape_plain (s : string) : plain_string s = true -> escape s = s.
Proof.
  induction s as [| c s IH]; simpl; [reflexivity |].
  intros H. apply andb_true_iff in H as [Hc Hs]. rewrite (IH Hs).
  apply plain_char_spec in Hc as (Hn & Hq & Hb).
  unfold escape_char. rewrite Hq, Hb.
  apply Nat.ltb_ge in Hn.
  destruct (Nat.eqb_spec (nat_of_ascii c) 8); [lia |].
  destruct (Nat.eqb_spec (nat_of_ascii c) 9); [lia |].
  destruct (Nat.eqb_spec (nat_of_ascii c) 10); [lia |].
  destruct (Nat.eqb_spec (nat_of_ascii c) 12); [lia |].
  destruct (Nat.eqb_spec (nat_of_ascii c) 13); [lia |].
  destruct (Nat.ltb_spec (nat_of_ascii c) 32); [lia |].
  reflexivity.
Qed.

Lemma parse_chars_plain (s rest : string) :
  plain_string s = true -> parse_chars (s ++ String dquote rest) = Some (s, rest).
Proof.
  induction s as [| c s IH].
  - intros _. reflexivity.
  - rewrite append_cons. simpl.
    intros H. apply andb_true_iff in H as [Hc Hs]. rewrite (IH Hs).
    apply plain_char_spec in Hc as (Hn & Hq & Hb).
    now rewrite Hq, Hb, Hn.
Qed.

Lemma quote_plain (s rest : string) :
  plain_string s = true ->
  quote s ++ rest = String dquote (s ++ String dquote rest).
Proof.
  intros H. unfold quote, str1. rewrite (escape_plain s H).
  now norm_str.
Qed.

(** Nested induction on values. *)
Lemma jsval_nested_ind (number : Type) (Q : jsval number -> Prop) :
  Q JUndefined -> Q JNull -> (forall b, Q (JBool b)) -> (forall x, Q (JNum x)) ->
  (forall s, Q (JStr s)) ->
  (forall elems, Forall Q elems -> Q (JArr elems)) ->
  (forall props, Forall (fun kv => Q (snd kv)) props -> Q (JObj props)) ->
  forall v, Q v.
Proof.
  intros Hu Hn Hb Hx Hs Ha Ho. fix IH 1.
  intros [| | b | x | s | elems | props];
    [exact Hu | exact Hn | apply Hb | apply Hx | apply Hs | |].
  - apply Ha. induction elems as [| e l IHl]; constructor; [apply IH | apply IHl].
  - apply Ho. induction props as [| [k e] l IHl]; constructor; [apply IH | apply IHl].
Qed.

Lemma serialize_starts_value (indent : string) (v : jsval Z) (text : string) :
  plain v = true -> ref_serialize indent v = Some text -> starts_value text.
Proof.
  unfold starts_value.
  destruct v as [| | b | x | s | elems | props]; simpl; try discriminate;
    intros _ E; injection E as <-.
  - eexists _, _. repeat split; reflexivity.
  - destruct b; eexists _, _; repeat split; reflexivity.
  - eexists _, _. repeat split; reflexivity.
  - unfold wrap. destruct (map _ elems); eexists _, _; repeat split; reflexivity.
  - unfold wrap. destruct (omap _ props); eexists _, _; repeat split; reflexivity.
Qed.

Lemma concat_cons2 (sep x y : string) (l : list string) :
  String.concat sep (x :: y :: l) = x ++ sep ++ String.concat sep (y :: l).
Proof. reflexivity. Qed.

Lemma concat_starts (sep : string) (x : string) (l : list string) (c : ascii) (t : string) :
  x = String c t -> exists u, String.concat sep (x :: l) = String c u.
Proof.
  intros ->. destruct l as [| y l].
  - eexists. reflexivity.
  - rewrite concat_cons2, append_cons. eexists. reflexivity.
Qed.

(** One step of the parser, by the first character after white space. *)
Lemma parse_value_string (n : nat) (s r : string) :
  skip_ws s = String dquote r ->
  parse_value (S n) s
  = match parse_chars r with
    | Some (text, rest) => Some (JStr text, rest)
    | None => None
    end.
Proof. intros E. cbn [parse_value]. rewrite E. destruct (parse_chars r) as [[? ?] |]; reflexivity. Qed.

Lemma parse_value_array (n : nat) (s r : string) :
  skip_ws s = String "[" r ->
  parse_value (S n) s
  = match starts_with "]" (skip_ws r) with
    | Some rest => Some (JArr [], rest)
    | None =>
        match parse_elements n r with
        | Some (elems, rest) => Some (JArr elems, rest)
        | None => None
        end
    end.
Proof.
  intros E. cbn [parse_value]. rewrite E.
  change (Ascii.eqb "[" dquote) with false. change (Ascii.eqb "[" "[") with true.
  cbv iota. destruct (starts_with "]" (skip_ws r)); [reflexivity |].
  destruct (parse_elements n r) as [[? ?] |]; reflexivity.
Qed.

Lemma parse_value_object (n : nat) (s r : string) :
  skip_ws s = String "{" r ->
  parse_value (S n) s
  = match starts_with "}" (skip_ws r) with
    | Some rest => Some (JObj [], rest)
    | None =>
        match parse_members n r with
        | Some (members, rest) =>
            Some (JObj (fold_left (fun acc kv => assoc_set acc (fst kv) (snd kv))
                                  members []), rest)
        | None => None
        end
    end.
Proof.
  intros E. cbn [parse_value]. rewrite E.
  change (Ascii.eqb "{" dquote) with false. change (Ascii.eqb "{" "[") with false.
  change (Ascii.eqb "{" "{") with true.
  cbv iota. destruct (starts_with "}" (skip_ws r)); [reflexivity |].
  destruct (parse_members n r) as [[? ?] |]; reflexivity.
Qed.

Lemma parse_value_word (n : nat) (s : string) (c : ascii) (word rest : string) (v : jsval Z) :
  (c, word, v) = ("n"%char, "ull", JNull)
  \/ (c, word, v) = ("t"%char, "rue", JBool true)
  \/ (c, word, v) = ("f"%char, "alse", JBool false) ->
  skip_ws s = String c (word ++ rest) ->
  parse_value (S n) s = Some (v, rest).
Proof.
  intros H E. cbn [parse_value]. rewrite E.
  destruct H as [H | [H | H]]; injection H as -> -> ->; reflexivity.
Qed.

Lemma parse_elements_step (n : nat) (s : string) :
  parse_elements (S n) s
  = match parse_value n s with
    | Some (v, r) =>
        match skip_ws r with
        | String c r' =>
            if Ascii.eqb c "," then
              match parse_elements n r' with
              | Some (more, rest) => Some (v :: more, rest)
              | None => None
              end
            else if Ascii.eqb c "]" then Some ([v], r')
            else None
        | EmptyString => None
        end
    | None => None
    end.
Proof.
  cbn [parse_elements]. destruct (parse_value n s) as [[v r] |]; [| reflexivity].
  simpl. destruct (skip_ws r) as [| c r']; [reflexivity |].
  destruct (Ascii.eqb c ","); [| reflexivity].
  destruct (parse_elements n r') as [[? ?] |]; reflexivity.
Qed.

Lemma parse_members_step (n : nat) (s : string) :
  parse_members (S n) s
  = match starts_with dquote (skip_ws s) with
    | Some r0 =>
        match parse_chars r0 with
        | Some (key, r1) =>
            match starts_with ":" (skip_ws r1) with
            | Some r2 =>
                match parse_value n r2 with
                | Some (v, r3) =>
                    match skip_ws r3 with
                    | String c r' =>
                        if Ascii.eqb c "," then
                          match parse_members n r' with
                          | Some (more, rest) => Some ((key, v) :: more, rest)
                          | None => None
                          end
                        else if Ascii.eqb c "}" then Some ([(key, v)], r')
                        else None
                    | EmptyString => None
                    end
                | None => None
                end
            | None => None
            end
        | None => None
        end
    | None => None
    end.
Proof.
  cbn [parse_members]. destruct (starts_with dquote (skip_ws s)) as [r0 |]; [| reflexivity].
  simpl. destruct (parse_chars r0) as [[key r1] |]; [| reflexivity].
  simpl. destruct (starts_with ":" (skip_ws r1)) as [r2 |]; [| reflexivity].
  simpl. destruct (parse_value n r2) as [[v r3] |]; [| reflexivity].
  simpl. destruct (skip_ws r3) as [| c r']; [reflexivity |].
  destruct (Ascii.eqb c ","); [| reflexivity].
  destruct (parse_members n r') as [[? ?] |]; reflexivity.
Qed.

Lemma skip_ws_sep (inner s : string) :
  skip_ws (item_sep inner ++ s) = String "," (String newline (inner ++ s)).
Proof. unfold item_sep. now norm_str. Qed.

Lemma parse_elements_items (inner : string) (l : list (jsval Z)) :
  blank inner = true ->
  forall e n ws tail rest,
    Forall (reads_back inner) (e :: l) ->
    blank ws = true -> (sizes (e :: l) < n)%nat ->
    skip_ws tail = String "]" rest ->
    parse_elements n (ws ++ String.concat (item_sep inner) (map (item inner) (e :: l)) ++ tail)
    = Some (e :: l, rest).
Proof.
  intros Hinner. induction l as [| e2 l IH]; intros e n ws tail rest Hall Hws Hn Htail;
    inversion Hall as [| ? ? He Hl]; subst;
    (destruct n as [| m]; [unfold sizes in Hn; simpl in Hn; lia |]);
    unfold sizes in Hn; simpl in Hn.
  - destruct (He m ws tail Hws ltac:(lia)) as (text & Hser & Hparse).
    cbn [map]. unfold item at 1. rewrite Hser. cbn [from_option id String.concat].
    rewrite parse_elements_step, Hparse, Htail. reflexivity.
  - cbn [map]. rewrite concat_cons2. norm_str.
    destruct (He m ws (item_sep inner ++ String.concat (item_sep inner) (map (item inner) (e2 :: l)) ++ tail)
                Hws ltac:(lia)) as (text & Hser & Hparse).
    unfold item at 1. rewrite Hser. cbn [from_option id]. cbn [map] in Hparse.
    rewrite parse_elements_step, Hparse, skip_ws_sep.
    change (Ascii.eqb "," ",") with true. cbv iota.
    rewrite <- append_cons.
    pose proof (IH e2 m (String newline inner) tail rest Hl) as IH2. cbn [map] in IH2.
    rewrite IH2; [reflexivity | | | exact Htail].
    + simpl. exact Hinner.
    + unfold sizes. simpl. lia.
Qed.

Lemma parse_member_head (n : nat) (ws k text R : string) (v : jsval Z) :
  blank ws = true -> plain_string k = true ->
  parse_value n (" " ++ text ++ R) = Some (v, R) ->
  parse_members (S n) (ws ++ (quote k ++ ": " ++ text) ++ R)
  = match skip_ws R with
    | String c r' =>
        if Ascii.eqb c "," then
          match parse_members n r' with
          | Some (more, rest) => Some ((k, v) :: more, rest)
          | None => None
          end
        else if Ascii.eqb c "}" then Some ([(k, v)], r')
        else None
    | EmptyString => None
    end.
Proof.
  intros Hws Hk Hparse.
  rewrite parse_members_step.
  rewrite !append_assoc, skip_ws_blank by exact Hws.
  rewrite (quote_plain k _ Hk), skip_ws_head by reflexivity.
  change (starts_with dquote (String dquote ?x)) with (Some x).
  cbv iota. rewrite parse_chars_plain by exact Hk.
  rewrite !append_cons, append_nil_l, skip_ws_head by reflexivity.
  change (starts_with ":" (String ":" ?x)) with (Some x). cbv iota.
  change (String " " (text ++ R)) with (" " ++ text ++ R).
  rewrite Hparse. reflexivity.
Qed.

Lemma parse_members_items (inner : string) (l : list (string * jsval Z)) :
  blank inner = true ->
  forall kv n ws tail rest,
    Forall (member_reads_back inner) (kv :: l) ->
    blank ws = true -> (sizes_props (kv :: l) < n)%nat ->
    skip_ws tail = String "}" rest ->
    parse_members n (ws ++ String.concat (item_sep inner) (map (member inner) (kv :: l)) ++ tail)
    = Some (kv :: l, rest).
Proof.
  intros Hinner. induction l as [| kv2 l IH]; intros [k v] n ws tail rest Hall Hws Hn Htail;
    inversion Hall as [| ? ? [Hk Hv] Hl]; subst; cbn [fst snd] in Hk, Hv;
    (destruct n as [| m]; [unfold sizes_props in Hn; simpl in Hn; lia |]);
    unfold sizes_props in Hn; simpl in Hn.
  - destruct (Hv m " " tail eq_refl ltac:(lia)) as (text & Hser & Hparse).
    cbn [map String.concat]. unfold member, item. cbn [fst snd].
    rewrite Hser. cbn [from_option id].
    rewrite (parse_member_head m ws k text tail v Hws Hk Hparse), Htail. reflexivity.
  - cbn [map]. rewrite concat_cons2.
    set (more := String.concat (item_sep inner) (member inner kv2 :: map (member inner) l)).
    destruct (Hv m " " (item_sep inner ++ more ++ tail) eq_refl ltac:(lia))
      as (text & Hser & Hparse).
    unfold member at 1, item. cbn [fst snd]. rewrite Hser. cbn [from_option id].
    replace (ws ++ ((quote k ++ ": " ++ text) ++ item_sep inner ++ more) ++ tail)
      with (ws ++ (quote k ++ ": " ++ text) ++ item_sep inner ++ more ++ tail)
      by (now rewrite !append_assoc).
    rewrite (parse_member_head m ws k text _ v Hws Hk Hparse), skip_ws_sep.
    change (Ascii.eqb "," ",") with true. cbv iota.
    rewrite <- append_cons.
    pose proof (IH kv2 m (String newline inner) tail rest Hl) as IH2. cbn [map] in IH2.
    unfold more. rewrite IH2; [reflexivity | | | exact Htail].
    + simpl. exact Hinner.
    + unfold sizes_props. simpl. lia.
Qed.

(** Objects with distinct keys are rebuilt as they were. *)
Lemma assoc_has_app {A} (a b : list (string * A)) (k : string) :
  assoc_has (a ++ b) k = assoc_has a k || assoc_has b k.
Proof.
  induction a as [| [k0 v0] a IH]; simpl; [reflexivity |].
  now rewrite IH, orb_assoc.
Qed.

Lemma assoc_set_fresh {A} (props : list (string * A)) (k : string) (v : A) :
  assoc_has props k = false -> assoc_set props k v = (props ++ [(k, v)])%list.
Proof.
  induction props as [| [k0 v0] props IH]; simpl; [reflexivity |].
  intros H. apply orb_false_iff in H as [Hk Hrest].
  rewrite Hk. now rewrite IH.
Qed.

Lemma distinct_keys_fresh {A} (acc l : list (string * A)) (k : string) (v : A) :
  distinct_keys (acc ++ (k, v) :: l) = true -> assoc_has acc k = false.
Proof.
  induction acc as [| [k0 v0] acc IH]; simpl; [reflexivity |].
  intros H. apply andb_true_iff in H as [Hk0 Hrest].
  apply negb_true_iff in Hk0. rewrite assoc_has_app in Hk0.
  apply orb_false_iff in Hk0 as [_ Hk0]. simpl in Hk0.
  apply orb_false_iff in Hk0 as [Hk0 _].
  rewrite String.eqb_sym, Hk0. simpl. now apply IH.
Qed.

Lemma fold_assoc_set_distinct {A} (props acc : list (string * A)) :
  distinct_keys (acc ++ props) = true ->
  fold_left (fun acc kv => assoc_set acc (fst kv) (snd kv)) props acc
  = (acc ++ props)%list.
Proof.
  revert acc. induction props as [| [k v] props IH]; intros acc H; simpl.
  - now rewrite app_nil_r.
  - rewrite assoc_set_fresh by (eapply distinct_keys_fresh; exact H).
    rewrite IH; rewrite <- app_assoc; [reflexivity | exact H].
Qed.

Lemma reads_back_serializes (inner : string) (v : jsval Z) :
  reads_back inner v -> exists text, ref_serialize inner v = Some text.
Proof.
  intros H. destruct (H (S (size v)) EmptyString EmptyString eq_refl ltac:(lia))
    as (text & Hser & _). eauto.
Qed.

Lemma omap_members (inner : string) (props : list (string * jsval Z)) :
  Forall (member_reads_back inner) props ->
  omap (fun kv => option_map (fun t => quote (fst kv) ++ ": " ++ t)
                             (ref_serialize inner (snd kv))) props
  = map (member inner) props.
Proof.
  induction 1 as [| [k v] l [_ Hv] _ IH]; [reflexivity |].
  cbn [omap list_omap map]. cbn [fst snd] in *.
  destruct (reads_back_serializes inner v Hv) as (text & Hser).
  unfold member at 1, item. cbn [fst snd]. rewrite Hser. cbn [option_map from_option id].
  f_equal. exact IH.
Qed.

Lemma skip_ws_close (indent rest : string) (c : ascii) :
  blank indent = true -> is_ws c = false ->
  skip_ws (String newline indent ++ String c rest) = String c rest.
Proof.
  intros Hi Hc. rewrite skip_ws_blank by exact Hi. now apply skip_ws_head.
Qed.

(** Every plain value reads back at every indent of spaces. *)
Lemma plain_reads_back (v : jsval Z) :
  plain v = true -> forall indent, blank indent = true -> reads_back indent v.
Proof.
  induction v as [| | b | x | s | elems IH | props IH] using jsval_nested_ind;
    intros Hplain indent Hindent n ws rest Hws Hn; try discriminate.
  - exists "null". split; [reflexivity |].
    destruct n as [| m]; [lia |].
    apply (parse_value_word m _ "n" "ull" rest JNull); [auto |].
    rewrite skip_ws_blank by exact Hws. reflexivity.
  - destruct n as [| m]; [lia |]. destruct b.
    + exists "true". split; [reflexivity |].
      apply (parse_value_word m _ "t" "rue" rest (JBool true)); [auto |].
      rewrite skip_ws_blank by exact Hws. reflexivity.
    + exists "false". split; [reflexivity |].
      apply (parse_value_word m _ "f" "alse" rest (JBool false)); [auto |].
      rewrite skip_ws_blank by exact Hws. reflexivity.
  - exists (quote s). split; [reflexivity |].
    destruct n as [| m]; [lia |]. simpl in Hplain.
    rewrite (parse_value_string m _ (s ++ String dquote rest)).
    + now rewrite parse_chars_plain.
    + rewrite skip_ws_blank by exact Hws. rewrite quote_plain by exact Hplain.
      reflexivity.
  - set (inner := indent ++ "  ").
    assert (Hinner : blank inner = true).
    { unfold inner. rewrite blank_append, Hindent. reflexivity. }
    exists (wrap "[" "]" indent (map (item inner) elems)). split; [reflexivity |].
    destruct n as [| m]; [lia |].
    simpl in Hplain. rewrite forallb_forall, <- List.Forall_forall in Hplain.
    assert (Hall : Forall (reads_back inner) elems).
    { rewrite Forall_forall in *. intros e He. apply IH; auto. }
    destruct elems as [| e l].
    + rewrite (parse_value_array m _ (String "]" rest)).
      * reflexivity.
      * rewrite skip_ws_blank by exact Hws. reflexivity.
    + set (C := String.concat (item_sep inner) (map (item inner) (e :: l))).
      set (tail := String newline indent ++ String "]" rest).
      rewrite (parse_value_array m _ (String newline inner ++ C ++ tail)).
      * assert (Hhead : starts_value (item inner e)).
        { inversion Hall as [| ? ? He _]; subst.
          destruct (reads_back_serializes inner e He) as (text & Hser).
          unfold item. rewrite Hser. cbn [from_option id].
          inversion Hplain; subst.
          eapply serialize_starts_value; eassumption. }
        destruct Hhead as (c & t & Ht & Hc & Hclose).
        destruct (concat_starts (item_sep inner) (item inner e) (map (item inner) l) c t Ht)
          as (u & Hu).
        rewrite skip_ws_blank by (simpl; exact Hinner).
        unfold C at 1. cbn [map]. rewrite Hu, append_cons, skip_ws_head by exact Hc.
        unfold starts_with. rewrite Hclose. unfold C.
        rewrite (parse_elements_items inner l Hinner e m (String newline inner) tail rest);
          [reflexivity | exact Hall | simpl; exact Hinner | simpl in Hn; unfold sizes; simpl; lia |].
        unfold tail. now apply skip_ws_close.
      * rewrite skip_ws_blank by exact Hws.
        unfold wrap, C, tail, str1, inner. cbn [map]. norm_str.
        now rewrite skip_ws_head by reflexivity.
  - set (inner := indent ++ "  ").
    assert (Hinner : blank inner = true).
    { unfold inner. rewrite blank_append, Hindent. reflexivity. }
    simpl in Hplain. apply andb_true_iff in Hplain as [Hplain Hkeys].
    rewrite forallb_forall, <- List.Forall_forall in Hplain.
    assert (Hall : Forall (member_reads_back inner) props).
    { rewrite Forall_forall in *. intros kv Hkv.
      specialize (Hplain kv Hkv). apply andb_true_iff in Hplain as [? ?].
      split; [assumption |]. apply IH; auto. }
    exists (wrap "{" "}" indent (map (member inner) props)). split.
    { cbn [ref_serialize]. fold inner. now rewrite (omap_members inner props Hall). }
    destruct n as [| m]; [lia |].
    destruct props as [| kv l].
    + rewrite (parse_value_object m _ (String "}" rest)).
      * reflexivity.
      * rewrite skip_ws_blank by exact Hws. reflexivity.
    + set (C := String.concat (item_sep inner) (map (member inner) (kv :: l))).
      set (tail := String newline indent ++ String "}" rest).
      rewrite (parse_value_object m _ (String newline inner ++ C ++ tail)).
      * assert (Hu : exists u, C = String dquote u).
        { unfold C. cbn [map]. eapply concat_starts. unfold member, quote. reflexivity. }
        destruct Hu as (u & Hu).
        rewrite skip_ws_blank by (simpl; exact Hinner).
        rewrite Hu, append_cons, skip_ws_head by reflexivity.
        change (starts_with "}" (String dquote ?x)) with (@None string).
        cbv iota. rewrite <- append_cons, <- Hu. unfold C.
        rewrite (parse_members_items inner l Hinner kv m (String newline inner) tail rest);
          [| exact Hall | simpl; exact Hinner
           | simpl in Hn; unfold sizes_props; simpl; lia
           | unfold tail; now apply skip_ws_close].
        rewrite (fold_assoc_set_distinct (kv :: l) []) by exact Hkeys. reflexivity.
      * rewrite skip_ws_blank by exact Hws.
        unfold wrap, C, tail, str1, inner. cbn [map]. norm_str.
        now rewrite skip_ws_head by reflexivity.
Qed.

(** The text of a plain value is at least as long as the fuel the
    parser needs for it. *)
Lemma list_sum_le {A} (f g : A -> nat) (l : list A) :
  Forall (fun x => (f x <= g x)%nat) l ->
  (list_sum (map f l) <= list_sum (map g l))%nat.
Proof. induction 1; simpl; lia. Qed.

Lemma concat_length_sum (sep : string) (items : list string) :
  (1 <= String.length sep)%nat ->
  (list_sum (map (fun t => S (String.length t)) items)
   <= String.length (String.concat sep items) + String.length sep)%nat.
Proof.
  intros Hsep. induction items as [| x [| y l] IH].
  - simpl. lia.
  - simpl. lia.
  - rewrite concat_cons2, !length_append.
    change (list_sum (map (fun t => S (String.length t)) (x :: y :: l)))
      with (S (String.length x)
            + list_sum (map (fun t => S (String.length t)) (y :: l)))%nat.
    lia.
Qed.

Lemma length_wrap (open close : ascii) (indent : string) (items : list string) :
  items <> [] ->
  String.length (wrap open close indent items)
  = (4 + String.length (indent ++ "  ")
     + String.length (String.concat (item_sep (indent ++ "  ")) items)
     + String.length indent)%nat.
Proof.
  intros Hne. destruct items as [| x l]; [contradiction |].
  unfold wrap, str1. norm_str. cbn [String.length].
  repeat (rewrite length_append; cbn [String.length]). lia.
Qed.

Lemma length_item_sep (inner : string) :
  String.length (item_sep inner) = (2 + String.length inner)%nat.
Proof. reflexivity. Qed.

Lemma size_le_wrap (open close : ascii) (indent : string) {A} (l : list A)
      (sz : A -> nat) (txt : A -> string) :
  Forall (fun x => (sz x <= String.length (txt x))%nat) l ->
  (S (list_sum (map (fun x => S (sz x)) l))
   <= String.length (wrap open close indent (map txt l)))%nat.
Proof.
  intros Hall. destruct l as [| x l]; [simpl; lia |].
  rewrite length_wrap by discriminate.
  pose proof (concat_length_sum (item_sep (indent ++ "  ")) (map txt (x :: l))) as Hc.
  rewrite length_item_sep in Hc. specialize (Hc ltac:(lia)).
  rewrite map_map in Hc.
  pose proof (list_sum_le (fun x => S (sz x)) (fun x => S (String.length (txt x))) (x :: l)) as Hs.
  assert (Hall' : Forall (fun x => (S (sz x) <= S (String.length (txt x)))%nat) (x :: l)).
  { eapply Forall_impl; [exact Hall |]. intros; simpl in *; lia. }
  specialize (Hs Hall'). lia.
Qed.

Lemma size_le_length (v : jsval Z) :
  plain v = true ->
  forall indent text, blank indent = true ->
    ref_serialize indent v = Some text -> (size v <= String.length text)%nat.
Proof.
  induction v as [| | b | x | s | elems IH | props IH] using jsval_nested_ind;
    intros Hplain indent text Hindent Hser; try discriminate.
  - injection Hser as <-. simpl. lia.
  - injection Hser as <-. destruct b; simpl; lia.
  - injection Hser as <-. simpl. lia.
  - set (inner := indent ++ "  ").
    assert (Hinner : blank inner = true).
    { unfold inner. rewrite blank_append, Hindent. reflexivity. }
    cbn [ref_serialize] in Hser. injection Hser as <-. fold inner. fold (item inner).
    cbn [size]. apply size_le_wrap.
    simpl in Hplain. rewrite forallb_forall, <- List.Forall_forall in Hplain.
    rewrite Forall_forall in *. intros e He.
    destruct (reads_back_serializes inner e (plain_reads_back e (Hplain e He) inner Hinner))
      as (t & Ht).
    unfold item. rewrite Ht. cbn [from_option id]. eapply IH; eauto.
  - set (inner := indent ++ "  ").
    assert (Hinner : blank inner = true).
    { unfold inner. rewrite blank_append, Hindent. reflexivity. }
    simpl in Hplain. apply andb_true_iff in Hplain as [Hplain Hkeys].
    rewrite forallb_forall, <- List.Forall_forall in Hplain.
    assert (Hall : Forall (member_reads_back inner) props).
    { rewrite Forall_forall in *. intros kv Hkv.
      specialize (Hplain kv Hkv). apply andb_true_iff in Hplain as [? ?].
      split; [assumption |]. now apply plain_reads_back. }
    cbn [ref_serialize] in Hser. fold inner in Hser.
    rewrite (omap_members inner props Hall) in Hser. injection Hser as <-.
    cbn [size]. apply (size_le_wrap "{" "}" indent props (fun kv => size (snd kv))).
    rewrite Forall_forall in *. intros kv Hkv.
    specialize (Hplain kv Hkv). apply andb_true_iff in Hplain as [_ Hpv].
    destruct (Hall kv Hkv) as [_ Hrb].
    destruct (reads_back_serializes inner _ Hrb) as (t & Ht).
    unfold member, item. rewrite Ht. cbn [from_option id].
    rewrite !length_append. specialize (IH kv Hkv Hpv inner t Hinner Ht). lia.
Qed.

(** Parsing the text of a plain value gives the value. *)
Theorem ref_parse_stringify (v : jsval Z) :
  plain v = true -> ref_parse (ref_stringify v) = Ok v.
Proof.
  intros Hplain.
  pose proof (plain_reads_back v Hplain EmptyString eq_refl) as Hrb.
  destruct (reads_back_serializes _ v Hrb) as (text & Hser).
  pose proof (size_le_length v Hplain EmptyString text eq_refl Hser) as Hsize.
  destruct (Hrb (S (String.length text)) EmptyString EmptyString eq_refl ltac:(lia))
    as (text' & Hser' & Hparse).
  rewrite Hser in Hser'. injection Hser' as <-.
  rewrite append_nil_l, append_nil_r in Hparse.
  unfold ref_stringify, ref_parse. rewrite Hser. cbn [from_option id].
  rewrite Hparse. reflexivity.
Qed.

(** * More properties of the program *)

Section MoreProperties.

Context {P : Platform}.

Local Abbreviation value := (jsval number).

(** *** Printing *)

Lemma grows_refl (w : world) : grows w w.
Proof. split; [reflexivity |]. exists []. now rewrite app_nil_r. Qed.

Lemma grows_trans (w1 w2 w3 : world) : grows w1 w2 -> grows w2 w3 -> grows w1 w3.
Proof.
  intros [F1 (l1 & C1)] [F2 (l2 & C2)]. split; [congruence |].
  exists (l1 ++ l2)%list. now rewrite C2, C1, app_assoc.
Qed.

Lemma quiet_bind {A B} (m : M A) (k : A -> M B) :
  quiet m -> (forall a, quiet (k a)) -> quiet (mbind k m).
Proof.
  intros Hm Hk w. unfold mbind, M_bind. specialize (Hm w).
  destruct (m w) as [[a | e] w']; simpl in *; [| assumption].
  eapply grows_trans; [eassumption | apply Hk].
Qed.

Lemma quiet_lift {A} (r : result A) : quiet (lift r).
Proof. intros w. apply grows_refl. Qed.

Lemma quiet_ret {A} (a : A) : quiet (mret a).
Proof. intros w. apply grows_refl. Qed.

Lemma quiet_console_log (line : string) : quiet (console_log line).
Proof. intros w. split; [reflexivity |]. now exists [line]. Qed.

Lemma quiet_get_board : quiet get_board.
Proof. intros w. apply grows_refl. Qed.

Lemma quiet_get_currentPlayer : quiet get_currentPlayer.
Proof. intros w. apply grows_refl. Qed.

Lemma quiet_set_board (b : value) : quiet (set_board b).
Proof. intros w. split; [reflexivity |]. exists []. simpl. now rewrite app_nil_r. Qed.

Lemma quiet_set_currentPlayer (p : value) : quiet (set_currentPlayer p).
Proof. intros w. split; [reflexivity |]. exists []. simpl. now rewrite app_nil_r. Qed.

Lemma quiet_for_each {A} (l : list A) (body : A -> M unit) :
  (forall a, quiet (body a)) -> quiet (for_each l body).
Proof.
  intros Hbody. induction l as [| a l IH]; simpl.
  - apply quiet_ret.
  - apply quiet_bind; [apply Hbody | intros _; apply IH].
Qed.

Lemma quiet_try_catch {A} (body : M A) (handler : exn -> M A) :
  quiet body -> (forall e, quiet (handler e)) -> quiet (try_catch body handler).
Proof.
  intros Hb Hh w. unfold try_catch. specialize (Hb w).
  destruct (body w) as [[a | e] w']; simpl in *; [assumption |].
  eapply grows_trans; [eassumption | apply Hh].
Qed.

Create HintDb quiet.
#[local] Hint Resolve quiet_lift quiet_ret quiet_console_log quiet_get_board
  quiet_get_currentPlayer quiet_set_board quiet_set_currentPlayer : quiet.

Ltac quiet_tac :=
  repeat first
    [ apply quiet_bind; [| intros ?]
    | apply quiet_for_each; intros ?
    | apply quiet_try_catch; [| intros ?]
    | solve [auto with quiet] ].

Lemma quiet_displayBoard : quiet displayBoard.
Proof. unfold displayBoard. quiet_tac. Qed.

(** X1: printing the board changes neither the board, nor the side to
    move, nor the save file, and takes no line off the console, in every
    world: on a board it cannot print it stops with an exception and the
    game state is still the same. *)
Theorem displayBoard_changes_nothing (w : world) :
  board (snd (displayBoard w)) = board w
  /\ currentPlayer (snd (displayBoard w)) = currentPlayer w
  /\ file (snd (displayBoard w)) = file w
  /\ exists lines, console (snd (displayBoard w)) = (console w ++ lines)%list.
Proof.
  destruct (keeps_displayBoard w) as (Hb & Hp & Hf).
  destruct (quiet_displayBoard w) as (_ & Hc). auto.
Qed.

Lemma paint_cell (t : string) :
  is_tag t = true ->
  (if String.eqb t "." then Ok (chalk Gray "." ++ " ")
   else
     upper ← is_upper (JStr t);
     text ← to_string (JStr t);
     let color := if upper : bool then White else Black in
     Ok (chalk color text ++ " "))
  = Ok (paint t ++ " ").
Proof.
  intros H. apply is_tag_In in H. simpl in H.
  repeat (destruct H as [<- | H]; [reflexivity |]). contradiction.
Qed.

Lemma cell_text_tag (b : value) (i j : Z) (t : string) :
  get_cell b (Int i) (Int j) = Ok (JStr t) -> is_tag t = true ->
  cell_text b i j = Ok (paint t ++ " ").
Proof.
  intros Hcell Ht. unfold cell_text. rewrite Hcell.
  exact (paint_cell t Ht).
Qed.

Lemma row_text_cells (b : value) (i : Z) (js : list Z) (ts : list string) :
  Forall2 (fun j t => get_cell b (Int i) (Int j) = Ok (JStr t) /\ is_tag t = true) js ts ->
  forall row, row_text b i js row = Ok (row ++ cells_text ts).
Proof.
  induction 1 as [| j t js ts [Hcell Ht] _ IH]; intros row; simpl.
  - now rewrite append_nil_r.
  - rewrite (cell_text_tag b i j t Hcell Ht). simpl. rewrite IH.
    now rewrite !append_assoc.
Qed.

Lemma row_text_row (b r : value) (i : Z) (row : string) :
  get_index b (Int i) = Ok r -> is_row r = true ->
  row_text b i indices row = Ok (row ++ cells_text (row_tags r)).
Proof.
  intros Hget Hrow. apply row_text_cells.
  apply is_row_spec in Hrow as (cells & -> & Hlen & Hcells).
  do 9 (destruct cells as [| ? cells]; try discriminate).
  repeat match goal with
         | H : Forall _ (_ :: _) |- _ => inversion H; subst; clear H
         end.
  repeat match goal with
         | H : is_piece ?c = true |- _ => destruct c; try discriminate H; simpl in H
         end.
  unfold indices, get_cell. rewrite Hget. simpl.
  repeat constructor; assumption.
Qed.

Lemma for_each_lines {A} (l : list A) (body : A -> M unit) (line : A -> string)
      (b : value) :
  (forall a w, In a l -> board w = b -> body a w = (Ok tt, add_line (line a) w)) ->
  forall w, board w = b -> for_each l body w = (Ok tt, add_lines (map line l) w).
Proof.
  induction l as [| a l IH]; intros Hbody w Hb; cbn [for_each map].
  - unfold mret, M_ret, add_lines. rewrite app_nil_r. now destruct w.
  - unfold mbind, M_bind. rewrite (Hbody a w (or_introl eq_refl) Hb).
    rewrite IH; [| intros; apply Hbody; [now right | assumption] | exact Hb].
    unfold add_line. now rewrite add_lines_add_lines.
Qed.

Lemma displayBoard_prints (w : world) (p : string) :
  is_grid (board w) = true -> currentPlayer w = JStr p ->
  displayBoard w = (Ok tt, add_lines (picture (board_tags (board w)) p) w).
Proof.
  intros Hb Hp. unfold displayBoard.
  unfold mbind at 1, M_bind at 1, console_log at 1.
  unfold mbind at 1, M_bind at 1.
  pose proof Hb as Hgrid.
  apply is_grid_spec in Hb as (rows & Hrows & Hlen & Hall).
  set (line := fun i : Z =>
                 rank_line (8 - i) (row_tags (default JUndefined (rows !! Z.to_nat i)))).
  match goal with |- context [for_each indices ?f ?w'] =>
    rewrite (for_each_lines indices f line (board w)) end.
  - unfold mbind, M_bind, console_log, get_currentPlayer, lift. simpl.
    rewrite Hp. simpl. unfold picture, add_lines. simpl. rewrite Hp.
    do 2 f_equal. rewrite Hrows. simpl.
    do 9 (destruct rows as [| ? rows]; try discriminate).
    rewrite <- !app_assoc. reflexivity.
  - intros i w' Hi Hw'. unfold mbind, M_bind, get_board, lift. rewrite Hw'.
    assert (Hrange : 0 <= i <= 7).
    { unfold indices in Hi. simpl in Hi. intuition lia. }
    destruct (grid_row rows i Hlen Hall Hrange) as (cells & Hrow & Hclen & Hcells).
    rewrite (row_text_row (board w) (JArr cells) i).
    + unfold console_log, add_line, add_lines, line, rank_line. rewrite Hrow. simpl.
      now rewrite !append_assoc.
    + rewrite Hrows. simpl. destruct (Z.leb_spec 0 i); [| lia]. now rewrite Hrow.
    + apply is_row_spec. eauto.
  - reflexivity.
Qed.

(** X2: on a grid with a string for the side to move, printing the
    board prints the file header, the eight rows from rank 8 down to rank 1
    (rank, the cells from file a to file h in gray, white or black by what
    they hold, each followed by a space, rank), the file header again and
    the side to move, and nothing else. *)
Theorem displayBoard_picture (w : world) (p : string) :
  is_grid (board w) = true -> currentPlayer w = JStr p ->
  displayBoard w = (Ok tt, add_lines (picture (board_tags (board w)) p) w).
Proof. apply displayBoard_prints. Qed.

(** *** The move command *)

Lemma parseMove_ill_formed (move : string) :
  ~ well_formed_notation move -> parseMove move = Throw (Error invalid_format_message).
Proof.
  intros Hnot. unfold parseMove.
  destruct (regex_test move_pattern move) eqn:E; [| reflexivity].
  now apply regex_test_move_pattern in E.
Qed.

(** X3: a move command whose notation is not file, rank, file, rank
    prints the format message in red and changes nothing else. *)
Theorem makeMove_bad_notation (w : world) (move : string) :
  ~ well_formed_notation move ->
  makeMove move w = (Ok tt, add_line (chalk Red invalid_format_message) w).
Proof.
  intros Hnot. rewrite makeMove_unfold, (parseMove_ill_formed move Hnot). reflexivity.
Qed.

Lemma quiet_applyMove (from to : coord) : quiet (applyMove from to).
Proof. destruct from, to. unfold applyMove. quiet_tac. Qed.

Lemma quiet_makeMove (move : string) : quiet (makeMove move).
Proof.
  unfold makeMove. quiet_tac. destruct (negb _); quiet_tac;
    first [apply quiet_applyMove | apply quiet_displayBoard].
Qed.

Lemma makeMove_returns (move : string) (w : world) : fst (makeMove move w) = Ok tt.
Proof.
  unfold makeMove, try_catch.
  match goal with |- context [match ?body w with _ => _ end] =>
    destruct (body w) as [[[] | e] w'] end; reflexivity.
Qed.

(** X4: a move command never throws, whatever the notation and whatever
    the board and the side to move hold; it never writes the save file and
    takes no line off the console. *)
Theorem makeMove_never_throws (w : world) (move : string) :
  fst (makeMove move w) = Ok tt
  /\ file (snd (makeMove move w)) = file w
  /\ exists lines, console (snd (makeMove move w)) = (console w ++ lines)%list.
Proof.
  split; [apply makeMove_returns |]. apply quiet_makeMove.
Qed.

(** *** Reading and writing properties, on every value *)

Lemma get_index_defined (v y : value) (k : num) : get_index v k = Ok y -> defined v.
Proof. destruct v; simpl; intros H; try discriminate; split; discriminate. Qed.

Lemma get_index_total (v : value) (k : num) : defined v -> exists y, get_index v k = Ok y.
Proof.
  intros [Hu Hn]. destruct v; try contradiction; simpl; eauto.
  - destruct k as [z |]; [| eauto]. destruct (0 <=? z); [| eauto].
    destruct (String.get _ _); eauto.
  - destruct k as [z |]; [| eauto]. destruct (0 <=? z); eauto.
Qed.

Lemma set_index_total (v x : value) (k : num) :
  defined v -> exists v', set_index v k x = Ok v' /\ defined v'.
Proof.
  intros [Hu Hn]. destruct v; try contradiction; simpl;
    try (eexists; split; [reflexivity | split; discriminate]).
  destruct k as [z |]; [| eexists; split; [reflexivity | split; discriminate]].
  destruct (0 <=? z); [| eexists; split; [reflexivity | split; discriminate]].
  destruct (_ <? _)%nat; eexists; split; try reflexivity; split; discriminate.
Qed.

Lemma assoc_get_set {A} (d x : A) (props : list (string * A)) (key key' : string) :
  assoc_get d (assoc_set props key x) key'
  = if String.eqb key key' then x else assoc_get d props key'.
Proof.
  induction props as [| [k v] rest IH]; simpl; [reflexivity |].
  destruct (String.eqb_spec k key) as [-> | Hk]; simpl.
  - destruct (String.eqb key key'); reflexivity.
  - destruct (String.eqb_spec k key') as [-> | Hk'].
    + destruct (String.eqb_spec key key'); [congruence | reflexivity].
    + exact IH.
Qed.

(** After [v[k] = x], reading [v[k']] gives [x] or what it gave before. *)
Lemma get_set_index (v v' x : value) (k k' : num) :
  set_index v k x = Ok v' ->
  get_index v' k' = Ok x \/ get_index v' k' = get_index v k'.
Proof.
  destruct v; simpl; intros H; try discriminate;
    try (injection H as <-; right; reflexivity).
  - destruct k as [z |]; [| injection H as <-; right; reflexivity].
    destruct (Z.leb_spec 0 z); [| injection H as <-; right; reflexivity].
    destruct (Nat.ltb_spec (Z.to_nat z) (length elems)); injection H as <-;
      (destruct k' as [z' |]; simpl; [| right; reflexivity]);
      (destruct (Z.leb_spec 0 z'); [| right; reflexivity]).
    + destruct (decide (Z.to_nat z = Z.to_nat z')) as [E | E].
      * left. rewrite <- E, list_lookup_insert_eq by lia. reflexivity.
      * right. now rewrite list_lookup_insert_ne.
    + destruct (Nat.lt_ge_cases (Z.to_nat z') (length elems)).
      * right. now rewrite lookup_app_l.
      * rewrite lookup_app_r by lia.
        rewrite (lookup_ge_None_2 elems (Z.to_nat z')) by lia. simpl.
        destruct (Nat.lt_ge_cases (Z.to_nat z' - length elems)
                                  (Z.to_nat z - length elems)).
        -- right. rewrite lookup_app_l by (rewrite length_replicate; lia).
           rewrite lookup_replicate_2 by lia. reflexivity.
        -- rewrite lookup_app_r by (rewrite length_replicate; lia).
           rewrite length_replicate.
           destruct (Z.to_nat z' - length elems - (Z.to_nat z - length elems))%nat
             as [| n] eqn:E; simpl.
           ++ left. reflexivity.
           ++ right. reflexivity.
  - injection H as <-. simpl. rewrite assoc_get_set.
    destruct (String.eqb _ _); [left | right]; reflexivity.
Qed.

(** A move the validator approved is applied to its end, on every board:
    the reads the validator made show that the rows exist. *)
Lemma approved_applies (w : world) (from to : coord) :
  isValidMove (board w) (currentPlayer w) from to = Ok true ->
  exists w', applyMove from to w = (Ok tt, w').
Proof.
  destruct from as [fr fc], to as [tr tc]. unfold isValidMove, get_cell.
  destruct (get_index (board w) fr) as [rowf | e] eqn:Hrowf; [simpl | discriminate].
  destruct (get_index rowf fc) as [piece | e] eqn:Hpiece; [simpl | discriminate].
  destruct (strict_eq_string piece "."); [discriminate |].
  destruct (is_upper piece) as [u | e]; [simpl | discriminate].
  destruct (_ || _); [discriminate |].
  destruct (get_index (board w) tr) as [rowt | e] eqn:Hrowt; [simpl | discriminate].
  destruct (get_index rowt tc) as [dest | e] eqn:Hdest; [simpl | discriminate].
  intros _.
  pose proof (get_index_defined _ _ _ Hrowf) as Hb.
  pose proof (get_index_defined _ _ _ Hpiece) as Hdf.
  pose proof (get_index_defined _ _ _ Hdest) as Hdt.
  destruct (set_index_total rowt piece tc Hdt) as (rowt' & Hset1 & Hdt').
  destruct (set_index_total (board w) rowt' tr Hb) as (b1 & Hset2 & Hb1).
  destruct (get_index_total b1 fr Hb1) as (r1 & Hr1).
  assert (Hdr1 : defined r1).
  { destruct (get_set_index _ _ _ _ fr Hset2) as [E | E]; congruence. }
  destruct (set_index_total r1 (JStr ".") fc Hdr1) as (r1' & Hset3 & _).
  destruct (set_index_total b1 r1' fr Hb1) as (b2 & Hset4 & _).
  unfold applyMove, mbind, M_bind, get_board, lift, set_board, get_currentPlayer,
    set_currentPlayer, get_cell, set_cell.
  rewrite Hrowf. simpl. rewrite Hpiece, Hrowt. simpl. rewrite Hset1. simpl.
  rewrite Hset2. simpl. rewrite Hr1. simpl. rewrite Hset3. simpl. rewrite Hset4.
  eauto.
Qed.

Lemma makeMove_all_or_nothing_aux (w : world) (move : string) :
  same_game w (snd (makeMove move w))
  \/ exists mv w',
       parseMove move = Ok mv
       /\ isValidMove (board w) (currentPlayer w) (from mv) (to mv) = Ok true
       /\ applyMove (from mv) (to mv) w = (Ok tt, w')
       /\ same_game w' (snd (makeMove move w)).
Proof.
  destruct (parseMove move) as [mv | e] eqn:Hparse.
  2:{ left. rewrite makeMove_unfold, Hparse. now repeat split. }
  destruct (isValidMove (board w) (currentPlayer w) (from mv) (to mv))
    as [[|] | e] eqn:Hv.
  2,3: left; rewrite makeMove_unfold, Hparse, Hv; now repeat split.
  right. destruct (approved_applies w (from mv) (to mv) Hv) as (w' & Happly).
  exists mv, w'. repeat split; try assumption;
    now apply (makeMove_approved w w' move mv Hparse Hv Happly).
Qed.

(** X5: a move command is all or nothing on every world, whatever the
    board holds: afterwards the game state is the one before, or it is the
    one the full application of an approved move left (both cells written
    and the side changed); the board is never left between the two. *)
Theorem makeMove_all_or_nothing (w : world) (move : string) :
  same_game w (snd (makeMove move w))
  \/ exists mv w',
       parseMove move = Ok mv
       /\ isValidMove (board w) (currentPlayer w) (from mv) (to mv) = Ok true
       /\ applyMove (from mv) (to mv) w = (Ok tt, w')
       /\ same_game w' (snd (makeMove move w)).
Proof. apply makeMove_all_or_nothing_aux. Qed.

(** *** Pieces are conserved *)

Lemma all_coords_nodup : NoDup all_coords.
Proof. apply (bool_decide_unpack _). vm_compute. exact I. Qed.

Lemma coord_ok_all (c : coord) : coord_ok c = true -> c ∈ all_coords.
Proof.
  intros H. apply coord_ok_spec in H as (r & k & -> & Hr & Hk).
  assert (Er : r = 0 \/ r = 1 \/ r = 2 \/ r = 3 \/ r = 4 \/ r = 5 \/ r = 6 \/ r = 7) by lia.
  assert (Ek : k = 0 \/ k = 1 \/ k = 2 \/ k = 3 \/ k = 4 \/ k = 5 \/ k = 6 \/ k = 7) by lia.
  apply list_elem_of_In.
  repeat (destruct Er as [-> | Er]); try subst r;
    repeat (destruct Ek as [-> | Ek]); try subst k; vm_compute; tauto.
Qed.

Lemma all_coords_ok (c : coord) : c ∈ all_coords -> coord_ok c = true.
Proof.
  intros H. apply list_elem_of_In in H. vm_compute in H.
  repeat (destruct H as [<- | H]; [reflexivity |]). contradiction.
Qed.

(** A sum over a list without repetition, when the summand changes at
    one element of the list. *)
Lemma sum_change {A} (f g : A -> nat) (l : list A) (a : A) :
  NoDup l -> a ∈ l -> (forall c, c ∈ l -> c <> a -> g c = f c) ->
  (list_sum (map g l) + f a = list_sum (map f l) + g a)%nat.
Proof.
  induction 1 as [| x l Hx Hnd IH]; intros Ha Hsame.
  - inversion Ha.
  - simpl. apply elem_of_cons in Ha as [<- | Ha].
    + assert (E : map g l = map f l).
      { apply map_ext_in. intros c Hc. apply list_elem_of_In in Hc.
        apply Hsame; [now right |]. intros ->. contradiction. }
      rewrite E. lia.
    + assert (x <> a) by (intros ->; contradiction).
      rewrite (Hsame x) by (auto; now left).
      assert (Hsame' : forall c, c ∈ l -> c <> a -> g c = f c)
        by (intros c Hc Hca; apply Hsame; [now right | exact Hca]).
      specialize (IH Ha Hsame').
      lia.
Qed.

Lemma sum_change2 (f g : coord -> nat) (l : list coord) (a b : coord) :
  NoDup l -> a ∈ l -> b ∈ l -> a <> b ->
  (forall c, c ∈ l -> c <> a -> c <> b -> g c = f c) ->
  (list_sum (map g l) + f a + f b = list_sum (map f l) + g a + g b)%nat.
Proof.
  intros Hnd Ha Hb Hab Hsame.
  set (h := fun c => if decide (c = a) then g a else f c).
  assert (H1 : (list_sum (map h l) + f a = list_sum (map f l) + h a)%nat).
  { apply sum_change; try assumption. intros c _ Hc. unfold h.
    destruct (decide (c = a)); [contradiction | reflexivity]. }
  assert (H2 : (list_sum (map g l) + h b = list_sum (map h l) + g b)%nat).
  { apply sum_change; try assumption. intros c Hc Hcb. unfold h.
    destruct (decide (c = a)) as [-> | Hca]; [reflexivity |]. now apply Hsame. }
  unfold h in H1, H2.
  destruct (decide (a = a)); [| contradiction].
  destruct (decide (b = a)); [congruence |]. lia.
Qed.

(** An approved move on a grid, cell by cell, for any value of the side
    to move. *)
Lemma applyMove_cells (w : world) (from to : coord) :
  is_grid (board w) = true -> coord_ok from = true -> coord_ok to = true ->
  from <> to ->
  exists w' src dst,
    applyMove from to w = (Ok tt, w')
    /\ cell (board w) from = Ok (JStr src) /\ is_tag src = true
    /\ cell (board w) to = Ok (JStr dst) /\ is_tag dst = true
    /\ cell (board w') to = Ok (JStr src)
    /\ cell (board w') from = Ok (JStr ".")
    /\ (forall c, coord_ok c = true -> c <> from -> c <> to ->
                  cell (board w') c = cell (board w) c)
    /\ is_grid (board w') = true
    /\ currentPlayer w'
       = (if strict_eq_string (currentPlayer w) "white" then JStr "black" else JStr "white")
    /\ file w' = file w /\ console w' = console w.
Proof.
  intros Hb Hf Ht Hne.
  destruct (grid_cell (board w) from Hb Hf) as (src & Hsrc & Hs).
  destruct (grid_cell (board w) to Hb Ht) as (dst & Hdst & Hd).
  destruct (set_cell_grid (board w) to (JStr src) Hb Ht Hs)
    as (b1 & Hset1 & Hg1 & Hto1 & Hother1).
  destruct (set_cell_grid b1 from (JStr ".") Hg1 Hf eq_refl)
    as (b2 & Hset2 & Hg2 & Hfrom2 & Hother2).
  exists {| board := b2;
            currentPlayer := if strict_eq_string (currentPlayer w) "white"
                             then JStr "black" else JStr "white";
            file := file w; console := console w |}, src, dst.
  split.
  { destruct from as [fromRow fromCol], to as [toRow toCol].
    unfold applyMove, mbind, M_bind, get_board, lift, set_board,
      get_currentPlayer, set_currentPlayer.
    simpl in Hset1, Hset2. rewrite cell_pair, Hsrc, Hset1. simpl.
    rewrite Hset2. reflexivity. }
  repeat split; try assumption; simpl.
  - rewrite Hother2; auto.
  - intros c Hc Hcf Hct. rewrite Hother2, Hother1; auto.
Qed.

Lemma holds_cell (b : value) (t s : string) (c : coord) :
  cell b c = Ok (JStr s) -> holds b t c = if String.eqb s t then 1%nat else 0%nat.
Proof. intros H. unfold holds. now rewrite H. Qed.

Lemma applyMove_counts (w w' : world) (from to : coord) (src dst : string) :
  coord_ok from = true -> coord_ok to = true -> from <> to ->
  cell (board w) from = Ok (JStr src) -> cell (board w) to = Ok (JStr dst) ->
  cell (board w') to = Ok (JStr src) -> cell (board w') from = Ok (JStr ".") ->
  (forall c, coord_ok c = true -> c <> from -> c <> to ->
             cell (board w') c = cell (board w) c) ->
  forall t,
    (count_tag (board w') t + (if String.eqb dst t then 1 else 0)
     = count_tag (board w) t + (if String.eqb "." t then 1 else 0))%nat.
Proof.
  intros Hf Ht Hne Hsrc Hdst Hto' Hfrom' Hother t. unfold count_tag.
  pose proof (sum_change2 (holds (board w) t) (holds (board w') t) all_coords from to
                all_coords_nodup (coord_ok_all _ Hf) (coord_ok_all _ Ht) Hne) as Hsum.
  rewrite (holds_cell _ t src from Hsrc), (holds_cell _ t dst to Hdst),
    (holds_cell _ t "." from Hfrom'), (holds_cell _ t src to Hto') in Hsum.
  assert (Hsame : forall c, c ∈ all_coords -> c <> from -> c <> to ->
                            holds (board w') t c = holds (board w) t c).
  { intros c Hc Hcf Hct. unfold holds.
    now rewrite (Hother c (all_coords_ok c Hc) Hcf Hct). }
  specialize (Hsum Hsame). lia.
Qed.

(** X6: an approved move on a grid conserves the pieces: for every tag,
    the number of cells that hold it is what it was, less the piece that
    stood on the destination, plus one empty cell; so nothing but the piece
    captured is lost and no piece is made. *)
Theorem applyMove_conserves (w : world) (from to : coord) :
  is_grid (board w) = true -> coord_ok from = true -> coord_ok to = true ->
  isValidMove (board w) (currentPlayer w) from to = Ok true ->
  exists w' dst,
    applyMove from to w = (Ok tt, w')
    /\ cell (board w) to = Ok (JStr dst)
    /\ forall t,
         (count_tag (board w') t + (if String.eqb dst t then 1 else 0)
          = count_tag (board w) t + (if String.eqb "." t then 1 else 0))%nat.
Proof.
  intros Hb Hf Ht Hv.
  assert (Hne : from <> to).
  { intros ->. now apply self_move_never_valid in Hv. }
  destruct (applyMove_cells w from to Hb Hf Ht Hne)
    as (w' & src & dst & Happly & Hsrc & _ & Hdst & _ & Hto' & Hfrom' & Hother & _).
  exists w', dst. split; [exact Happly |]. split; [exact Hdst |].
  now apply (applyMove_counts w w' from to src dst).
Qed.

Lemma makeMove_counts (w : world) (move : string) :
  is_grid (board w) = true ->
  is_grid (board (snd (makeMove move w))) = true
  /\ (forall t, t <> "." ->
        (count_tag (board (snd (makeMove move w))) t <= count_tag (board w) t)%nat)
  /\ (count_tag (board w) "." <= count_tag (board (snd (makeMove move w))) ".")%nat.
Proof.
  intros Hb. split; [now apply makeMove_grid |].
  destruct (makeMove_all_or_nothing_aux w move) as [(E & _) | (mv & w' & Hparse & Hv & Happly & (E & _))];
    rewrite E; [split; intros; lia |].
  destruct (parseMove_coords move mv Hparse) as [Hf Ht].
  assert (Hne : from mv <> to mv).
  { intros Heq. rewrite Heq in Hv. now apply self_move_never_valid in Hv. }
  destruct (applyMove_cells w (from mv) (to mv) Hb Hf Ht Hne)
    as (w2 & src & dst & Happly2 & Hsrc & _ & Hdst & _ & Hto' & Hfrom' & Hother & _).
  rewrite Happly in Happly2. injection Happly2 as <-.
  pose proof (applyMove_counts w w' (from mv) (to mv) src dst Hf Ht Hne
                Hsrc Hdst Hto' Hfrom' Hother) as Hcount.
  split.
  - intros t Hdot. specialize (Hcount t).
    destruct (String.eqb_spec "." t); [congruence |].
    destruct (String.eqb dst t); lia.
  - specialize (Hcount "."). rewrite String.eqb_refl in Hcount.
    destruct (String.eqb dst "."); lia.
Qed.

(** X7: over any sequence of move commands on a grid, the board stays
    a grid, no piece tag ever occurs more often than it did at the start
    and the empty cells never get fewer: moves can only remove pieces. *)
Theorem run_moves_never_add_pieces (moves : list string) (w : world) :
  is_grid (board w) = true ->
  fst (run_moves moves w) = Ok tt
  /\ is_grid (board (snd (run_moves moves w))) = true
  /\ (forall t, t <> "." ->
        (count_tag (board (snd (run_moves moves w))) t <= count_tag (board w) t)%nat)
  /\ (count_tag (board w) "." <= count_tag (board (snd (run_moves moves w))) ".")%nat.
Proof.
  revert w. unfold run_moves.
  induction moves as [| move moves IH]; intros w Hb; cbn [for_each].
  - repeat split; auto.
  - unfold mbind, M_bind.
    pose proof (makeMove_returns move w) as Hret.
    destruct (makeMove_counts w move Hb) as (Hg1 & Hle1 & Hdot1).
    destruct (makeMove move w) as [[[] | e] w1]; simpl in *; [| discriminate].
    destruct (IH w1 Hg1) as (Hret2 & Hg2 & Hle2 & Hdot2).
    repeat split; try assumption.
    + intros t Ht. specialize (Hle1 t Ht). specialize (Hle2 t Ht). lia.
    + lia.
Qed.

(** *** Moves, one after the other *)

Ltac each_tag H :=
  apply is_tag_In in H; simpl in H;
  repeat (destruct H as [<- | H]; [| ]); [.. | contradiction].

(** X8: after an approved move on a grid with a side to move, the move
    command prints the success line and then the picture of the new board
    with the other side to move. *)
Theorem makeMove_success_prints (w : world) (stm : side) (move : string) (mv : Move) :
  is_grid (board w) = true -> currentPlayer w = side_val stm ->
  parseMove move = Ok mv ->
  isValidMove (board w) (currentPlayer w) (from mv) (to mv) = Ok true ->
  exists w',
    applyMove (from mv) (to mv) w = (Ok tt, w')
    /\ makeMove move w
       = (Ok tt, add_lines (chalk Green "Move successful!"
                              :: picture (board_tags (board w'))
                                         (side_name (opposite stm))) w').
Proof.
  intros Hb Hp Hparse Hv.
  destruct (parseMove_coords move mv Hparse) as [Hf Ht].
  assert (Hne : from mv <> to mv).
  { intros Heq. rewrite Heq in Hv. now apply self_move_never_valid in Hv. }
  destruct (applyMove_cells w (from mv) (to mv) Hb Hf Ht Hne)
    as (w' & src & dst & Happly & _ & _ & _ & _ & _ & _ & _ & Hg & Hside & _).
  exists w'. split; [exact Happly |].
  assert (Hside' : currentPlayer w' = JStr (side_name (opposite stm))).
  { rewrite Hside, Hp. now destruct stm. }
  rewrite makeMove_unfold, Hparse, Hv.
  unfold try_catch, mbind, M_bind. rewrite Happly.
  unfold console_log at 1.
  match goal with |- context [displayBoard ?w1] =>
    rewrite (displayBoard_prints w1 (side_name (opposite stm)) Hg Hside') end.
  cbn [board]. unfold add_lines; simpl. now rewrite <- app_assoc.
Qed.

(** X9: the piece that has just moved cannot move again at once: after
    an approved move by the side to move, the validator rejects every move
    from the destination square. *)
Theorem moved_piece_waits (w : world) (stm : side) (from to : coord) :
  is_grid (board w) = true -> currentPlayer w = side_val stm ->
  coord_ok from = true -> coord_ok to = true ->
  isValidMove (board w) (currentPlayer w) from to = Ok true ->
  exists w',
    applyMove from to w = (Ok tt, w')
    /\ forall to', isValidMove (board w') (currentPlayer w') to to' = Ok false.
Proof.
  intros Hb Hp Hf Ht Hv.
  assert (Hne : from <> to).
  { intros ->. now apply self_move_never_valid in Hv. }
  destruct (applyMove_cells w from to Hb Hf Ht Hne)
    as (w' & src & dst & Happly & Hsrc & Hs & _ & _ & Hto' & _ & _ & _ & Hside & _).
  exists w'. split; [exact Happly |]. intros to'.
  rewrite Hside, Hp. rewrite Hp in Hv.
  destruct from as [fr fc], to as [tr tc], to' as [tr' tc'].
  unfold isValidMove in *. rewrite !cell_pair in *. rewrite Hsrc in Hv. rewrite Hto'.
  simpl in *.
  each_tag Hs; destruct stm; simpl in *; try discriminate Hv; reflexivity.
Qed.

(** X10: when the side to move is neither ['white'] nor ['black'] (any
    other value, [undefined] included), the ownership rule rejects nothing:
    on a grid the validator accepts a move exactly when the source cell holds
    a piece and the destination is empty or holds a piece of the other
    colour, and after the move white is to move. *)
Theorem unknown_side_moves_any_piece (w : world) (from to : coord) :
  is_grid (board w) = true -> coord_ok from = true -> coord_ok to = true ->
  is_side (currentPlayer w) = false ->
  exists src dst,
    cell (board w) from = Ok (JStr src) /\ cell (board w) to = Ok (JStr dst)
    /\ isValidMove (board w) (currentPlayer w) from to = Ok (validator_any_side src dst)
    /\ (validator_any_side src dst = true ->
        exists w', applyMove from to w = (Ok tt, w')
                   /\ currentPlayer w' = JStr "white").
Proof.
  intros Hb Hf Ht Hp.
  apply orb_false_iff in Hp as [Hw Hk].
  destruct (grid_cell (board w) from Hb Hf) as (src & Hsrc & Hs).
  destruct (grid_cell (board w) to Hb Ht) as (dst & Hdst & Hd).
  exists src, dst. split; [exact Hsrc |]. split; [exact Hdst |].
  assert (Hv : isValidMove (board w) (currentPlayer w) from to
               = Ok (validator_any_side src dst)).
  { destruct from as [fr fc], to as [tr tc].
    unfold isValidMove. rewrite !cell_pair, Hsrc, Hw, Hk. simpl.
    each_tag Hs; simpl; try reflexivity; rewrite Hdst; simpl;
      each_tag Hd; reflexivity. }
  split; [exact Hv |]. intros Hok.
  assert (Hne : from <> to).
  { intros ->. rewrite Hok in Hv. now apply self_move_never_valid in Hv. }
  destruct (applyMove_cells w from to Hb Hf Ht Hne)
    as (w' & ? & ? & Happly & _ & _ & _ & _ & _ & _ & _ & _ & Hside & _).
  exists w'. split; [exact Happly |]. now rewrite Hside, Hw.
Qed.

(** *** Loading *)

Lemma loadGame_file (w : world) : file (snd (loadGame w)) = file w.
Proof.
  rewrite loadGame_unfold.
  destruct (file w) as [data |] eqn:Hfile; [| simpl; now rewrite ?Hfile].
  destruct (JSON_parse data) as [state | e]; [| simpl; now rewrite ?Hfile].
  destruct (get_named state "board"), (get_named state "currentPlayer");
    simpl; now rewrite ?Hfile.
Qed.

(** X11: the load takes what the file gives without looking at it.  When
    the text is JSON and the value has no board (the key is missing, the
    value is not an object, or the board is [null]), the [load] command
    reports success, sets the board to that [undefined] or [null], prints
    the file header and then throws a [TypeError] out of printing the
    board. *)
Theorem load_without_board_throws (data : string) (state b p : value) :
  JSON_parse data = Ok state ->
  get_named state "board" = Ok b -> get_named state "currentPlayer" = Ok p ->
  b = JUndefined \/ b = JNull ->
  main CmdLoad (Some data)
  = (Throw (TypeError (engine_message b "0")),
     {| board := b; currentPlayer := p; file := Some data;
        console := [chalk Green "Game loaded successfully!"; header_line] |}).
Proof.
  intros Hparse Hboard Hplayer Hb.
  unfold main, run_command. unfold mbind at 1, M_bind at 1.
  rewrite loadGame_unfold. cbn [file initial_world]. rewrite Hparse, Hboard, Hplayer.
  destruct Hb as [-> | ->]; reflexivity.
Qed.

(** X12: on a platform whose [JSON] reads back the text of a game state,
    the [load] command on a saved game sets the board and the side to move
    to the saved ones and prints the success line and the picture of the
    saved board. *)
Theorem load_saved_game_prints (b : value) (p : string) :
  json_faithful -> is_grid b = true -> is_side (JStr p) = true ->
  main CmdLoad (Some (JSON_stringify (snapshot b (JStr p))))
  = (Ok tt,
     {| board := b; currentPlayer := JStr p;
        file := Some (JSON_stringify (snapshot b (JStr p)));
        console := chalk Green "Game loaded successfully!"
                   :: picture (board_tags b) p |}).
Proof.
  intros Hjson Hb Hp. unfold main, run_command, mbind, M_bind.
  rewrite (loadGame_saved (initial_world (Some (JSON_stringify (snapshot b (JStr p)))))
             b (JStr p) Hjson Hb Hp eq_refl).
  rewrite displayBoard_prints with (p := p); [reflexivity | exact Hb | reflexivity].
Qed.

(** *** The runs of the program *)

(** X13: the [board] command prints the standard position with white to
    move, whatever the save file holds, and leaves the file alone. *)
Theorem board_command_prints_start (f : option string) :
  main CmdBoard f
  = (Ok tt,
     {| board := initial_board; currentPlayer := JStr "white"; file := f;
        console := picture (board_tags standard_position) "white" |}).
Proof.
  unfold main, run_command.
  rewrite displayBoard_prints with (p := "white"); reflexivity.
Qed.

Lemma run_file (c : command) (f : option string) :
  file (snd (main c f))
  = match c with
    | CmdSave => Some initial_save
    | _ => f
    end.
Proof.
  unfold main. destruct c as [move | | |]; cbn [run_command].
  - apply quiet_makeMove.
  - apply quiet_displayBoard.
  - reflexivity.
  - unfold mbind, M_bind.
    pose proof (loadGame_file (initial_world f)) as Hfile.
    pose proof (loadGame_returns (initial_world f)) as Hret.
    destruct (loadGame (initial_world f)) as [[[] | e] w1]; simpl in *; [| discriminate].
    rewrite <- Hfile. apply quiet_displayBoard.
Qed.

(** X14: a run of [move], [board] or [load] leaves the save file as it
    found it, so a move is never saved; a run of [save] writes the initial
    position with white to move, whatever the file held. *)
Theorem run_leaves_file (c : command) (f : option string) :
  file (snd (main c f))
  = match c with
    | CmdSave => Some initial_save
    | _ => f
    end.
Proof. apply run_file. Qed.

Lemma left_behind_cases (f : option string) :
  left_behind f -> f = None \/ f = Some initial_save.
Proof.
  induction 1 as [| c f _ IH]; [now left |].
  rewrite run_file. destruct c; auto.
Qed.

(** X15: when the first run finds no save file, the only save file the
    program ever leaves is the text of the initial position with white to
    move. *)
Theorem only_the_start_is_saved (f : option string) :
  left_behind f -> f = None \/ f = Some initial_save.
Proof. apply left_behind_cases. Qed.

(** X16: on a platform whose [JSON] reads back the text of a game state,
    and when the first run found no save file, every run of [load] returns
    normally and ends in the initial position with white to move. *)
Theorem load_restores_only_the_start (f : option string) :
  json_faithful -> left_behind f ->
  fst (main CmdLoad f) = Ok tt
  /\ board (snd (main CmdLoad f)) = initial_board
  /\ currentPlayer (snd (main CmdLoad f)) = JStr "white".
Proof.
  intros Hjson Hleft.
  assert (Hload : exists line, loadGame (initial_world f)
                               = (Ok tt, add_line line (initial_world f))).
  { destruct (left_behind_cases f Hleft) as [-> | ->].
    - eexists. apply loadGame_fails. now left.
    - eexists. apply (loadGame_saved (initial_world (Some initial_save))
                        initial_board (JStr "white") Hjson); reflexivity. }
  destruct Hload as (line & Hload).
  unfold main, run_command, mbind, M_bind. rewrite Hload.
  rewrite displayBoard_prints with (p := "white"); [| reflexivity | reflexivity].
  repeat split.
Qed.

(** *** The first move *)

Lemma first_moves_checked :
  forallb first_move_check (list_prod all_coords all_coords) = true.
Proof. vm_compute. reflexivity. Qed.

Lemma first_move_valid (from to : coord) :
  coord_ok from = true -> coord_ok to = true ->
  isValidMove initial_board (JStr "white") from to
  = Ok (first_move_ok {| from := from; to := to |}).
Proof.
  intros Hf Ht.
  pose proof first_moves_checked as H. rewrite forallb_forall in H.
  specialize (H (from, to)). unfold first_move_check in H. cbn [fst snd] in H.
  assert (Hin : In (from, to) (list_prod all_coords all_coords)).
  { apply in_prod; apply list_elem_of_In; now apply coord_ok_all. }
  specialize (H Hin).
  destruct (isValidMove initial_board (JStr "white") from to) as [v | e];
    [| discriminate].
  apply Bool.eqb_prop in H. now subst.
Qed.

(** X17: every run of [move] starts from the initial position with
    white to move, and there the validator accepts a parsed move exactly when
    it goes from one of the two white rows (ranks 1 and 2) to one of the
    other six; the run then applies it and black is to move, and otherwise
    it prints the failure line and changes nothing. *)
Theorem first_move_of_a_run (move : string) (mv : Move) (f : option string) :
  parseMove move = Ok mv ->
  isValidMove initial_board (JStr "white") (from mv) (to mv) = Ok (first_move_ok mv)
  /\ (first_move_ok mv = true ->
      exists w', applyMove (from mv) (to mv) (initial_world f) = (Ok tt, w')
                 /\ board (snd (main (CmdMove move) f)) = board w'
                 /\ currentPlayer (snd (main (CmdMove move) f)) = JStr "black")
  /\ (first_move_ok mv = false ->
      main (CmdMove move) f = (Ok tt, add_line invalid_move_line (initial_world f))).
Proof.
  intros Hparse. destruct (parseMove_coords move mv Hparse) as [Hf Ht].
  assert (Hv : isValidMove initial_board (JStr "white") (from mv) (to mv)
               = Ok (first_move_ok mv)).
  { rewrite (first_move_valid _ _ Hf Ht). now destruct mv. }
  split; [exact Hv |]. split.
  - intros Hok. rewrite Hok in Hv.
    destruct (approved_applies (initial_world f) (from mv) (to mv) Hv) as (w' & Happly).
    exists w'. split; [exact Happly |].
    destruct (makeMove_approved (initial_world f) w' move mv Hparse Hv Happly)
      as (Eb & Ep & _).
    unfold main, run_command. rewrite Eb, Ep. split; [reflexivity |].
    assert (Hne : from mv <> to mv).
    { intros Heq. rewrite Heq in Hv. now apply self_move_never_valid in Hv. }
    destruct (applyMove_cells (initial_world f) (from mv) (to mv) eq_refl Hf Ht Hne)
      as (w2 & ? & ? & Happly2 & _ & _ & _ & _ & _ & _ & _ & _ & Hside & _).
    rewrite Happly in Happly2. injection Happly2 as <-. exact Hside.
  - intros Hno. rewrite Hno in Hv.
    exact (makeMove_invalid (initial_world f) move mv Hparse Hv).
Qed.

(** *** The notation, back and forth *)

Lemma file_char_ok (k : Z) :
  0 <= k <= 7 -> is_file (file_char k) /\ code (file_char k) - code "a" = k.
Proof.
  intros Hk.
  assert (E : k = 0 \/ k = 1 \/ k = 2 \/ k = 3 \/ k = 4 \/ k = 5 \/ k = 6 \/ k = 7) by lia.
  repeat (destruct E as [-> | E]); try subst k;
    (split; [vm_compute; split; discriminate | reflexivity]).
Qed.

Lemma rank_char_ok (r : Z) :
  0 <= r <= 7 -> is_rank (rank_char r) /\ 8 - (code (rank_char r) - code "0") = r.
Proof.
  intros Hr.
  assert (E : r = 0 \/ r = 1 \/ r = 2 \/ r = 3 \/ r = 4 \/ r = 5 \/ r = 6 \/ r = 7) by lia.
  repeat (destruct E as [-> | E]); try subst r;
    (split; [vm_compute; split; discriminate | reflexivity]).
Qed.

(** X18: every pair of squares of the grid has a notation: the string
    built from the file letters and rank digits of the two squares parses to
    exactly that move. *)
Theorem parse_unparse (mv : Move) :
  coord_ok (from mv) = true -> coord_ok (to mv) = true ->
  parseMove (unparse mv) = Ok mv.
Proof.
  destruct mv as [f t]. simpl. intros Hf Ht.
  apply coord_ok_spec in Hf as (r & k & -> & Hr & Hk).
  apply coord_ok_spec in Ht as (r' & k' & -> & Hr' & Hk').
  destruct (file_char_ok k Hk) as [Hfk Ek], (rank_char_ok r Hr) as [Hrr Er].
  destruct (file_char_ok k' Hk') as [Hfk' Ek'], (rank_char_ok r' Hr') as [Hrr' Er'].
  unfold unparse. simpl.
  rewrite parseMove_well_formed by assumption.
  unfold square. now rewrite Ek, Er, Ek', Er'.
Qed.

Lemma file_char_code (c : ascii) : file_char (code c - code "a") = c.
Proof.
  unfold file_char, code.
  replace (Z.of_nat (nat_of_ascii "a")
           + (Z.of_nat (nat_of_ascii c) - Z.of_nat (nat_of_ascii "a")))
    with (Z.of_nat (nat_of_ascii c)) by lia.
  now rewrite Nat2Z.id, ascii_nat_embedding.
Qed.

Lemma rank_char_code (c : ascii) : rank_char (8 - (code c - code "0")) = c.
Proof.
  unfold rank_char, code.
  replace (Z.of_nat (nat_of_ascii "0")
           + (8 - (8 - (Z.of_nat (nat_of_ascii c) - Z.of_nat (nat_of_ascii "0")))))
    with (Z.of_nat (nat_of_ascii c)) by lia.
  now rewrite Nat2Z.id, ascii_nat_embedding.
Qed.

Lemma unparse_of_parsed (s : string) (mv : Move) :
  parseMove s = Ok mv -> unparse mv = s.
Proof.
  intros Hparse.
  assert (Hwf : well_formed_notation s).
  { apply regex_test_move_pattern. unfold parseMove in Hparse.
    destruct (regex_test move_pattern s); [reflexivity | discriminate]. }
  destruct Hwf as (f1 & r1 & f2 & r2 & -> & H1 & H2 & H3 & H4).
  rewrite parseMove_well_formed in Hparse by assumption.
  injection Hparse as <-. unfold unparse, square. simpl.
  now rewrite !file_char_code, !rank_char_code.
Qed.

(** X19: the parser loses nothing: a parsed move gives back the string it
    was parsed from, so two different strings never parse to the same
    move. *)
Theorem unparse_parse (s : string) (mv : Move) :
  parseMove s = Ok mv ->
  unparse mv = s /\ forall s', parseMove s' = Ok mv -> s' = s.
Proof.
  intros Hparse. pose proof (unparse_of_parsed s mv Hparse) as E.
  split; [exact E |]. intros s' Hparse'.
  now rewrite <- (unparse_of_parsed s' mv Hparse').
Qed.

End MoreProperties.
(** * The program on the reference platform *)

#[local] Existing Instance reference.

Lemma tag_plain (s : string) : is_tag s = true -> plain_string s = true.
Proof.
  intros H. apply is_tag_In in H. simpl in H.
  repeat (destruct H as [<- | H]; [reflexivity |]). contradiction.
Qed.

Lemma piece_plain (v : jsval Z) : is_piece v = true -> plain v = true.
Proof. destruct v; try discriminate. apply tag_plain. Qed.

Lemma row_plain (v : jsval Z) : is_row v = true -> plain v = true.
Proof.
  intros H. apply is_row_spec in H as (cells & -> & _ & Hcells).
  simpl. apply forallb_forall. rewrite List.Forall_forall in Hcells.
  intros c Hc. apply piece_plain. auto.
Qed.

Lemma grid_plain (v : jsval Z) : is_grid v = true -> plain v = true.
Proof.
  intros H. apply is_grid_spec in H as (rows & -> & _ & Hrows).
  simpl. apply forallb_forall. rewrite List.Forall_forall in Hrows.
  intros r Hr. apply row_plain. auto.
Qed.

Lemma side_plain (v : jsval Z) : is_side v = true -> plain v = true.
Proof.
  unfold is_side. destruct v; try discriminate. simpl.
  intros H. apply orb_true_iff in H as [H | H]; apply String.eqb_eq in H; now subst.
Qed.

(** The reference platform meets the contract on game states. *)
Lemma reference_json_faithful : json_faithful.
Proof.
  intros b p Hb Hp. apply ref_parse_stringify.
  simpl. rewrite (grid_plain b Hb), (side_plain p Hp). reflexivity.
Qed.

(** Text that is JSON but not a saved game is no failure for the load:
    the board becomes [undefined], the load reports success, and printing
    the board then throws. *)
Example load_of_other_json :
  loadGame (initial_world (Some "{}"))
  = (Ok tt, {| board := JUndefined; currentPlayer := JUndefined;
               file := Some "{}"; console := ["Game loaded successfully!"] |})
  /\ fst (main CmdLoad (Some "{}")) = Throw (TypeError "Cannot read or call 0").
Proof. split; reflexivity. Qed.

(** C1, as the specification states it, fails at a save file that holds
    the empty object: the content is malformed (it holds no game state),
    yet the load does not fall back.  It reports success, sets the board and
    the side to move to [undefined], and the [load] command then throws out
    of printing the board. *)
Lemma load_failure_falls_back_counterexample :
  absent_or_malformed (Some "{}")
  /\ ~ falls_back (Some "{}")
  /\ loadGame (initial_world (Some "{}"))
     = (Ok tt, {| board := JUndefined; currentPlayer := JUndefined;
                  file := Some "{}"; console := ["Game loaded successfully!"] |})
  /\ fst (main CmdLoad (Some "{}")) = Throw (TypeError "Cannot read or call 0").
Proof.
  split; [| split; [| split; reflexivity]].
  - intros (state & b & p & Hparse & Hb & _ & Hg & _).
    vm_compute in Hparse. injection Hparse as <-.
    vm_compute in Hb. injection Hb as <-. discriminate Hg.
  - unfold falls_back. intros H.
    assert (E : board (snd (loadGame (initial_world (Some "{}")))) = JUndefined)
      by reflexivity.
    rewrite H in E. discriminate E.
Qed.

(** ** The theorems at concrete inputs *)

(** The failing load, at an absent save file. *)
Lemma load_failure_falls_back_witness :
  load_fails None
  /\ ((forall w, file w = None ->
                 loadGame w = (Ok tt, add_line no_saved_game_line w))
      /\ (exists lines,
            main CmdLoad None
            = (Ok tt, add_lines (no_saved_game_line :: lines) (initial_world None)))
      /\ board (initial_world None) = standard_position
      /\ currentPlayer (initial_world None) = side_val WhiteSide
      /\ forall w, fst (loadGame w) = Ok tt).
Proof.
  split; [left; reflexivity |].
  apply (load_failure_falls_back None). left; reflexivity.
Defined.

(** The validator, at the opening move e2e4 with white to move. *)
Lemma isValidMove_spec_witness :
  is_grid initial_board = true
  /\ coord_ok (Int 6, Int 4) = true
  /\ coord_ok (Int 4, Int 4) = true
  /\ exists src dst,
       cell initial_board (Int 6, Int 4) = Ok (JStr src) /\ is_tag src = true
       /\ cell initial_board (Int 4, Int 4) = Ok (JStr dst) /\ is_tag dst = true
       /\ isValidMove initial_board (side_val WhiteSide) (Int 6, Int 4) (Int 4, Int 4)
          = Ok (validator_spec WhiteSide src dst).
Proof.
  split; [reflexivity |]. split; [reflexivity |]. split; [reflexivity |].
  apply (isValidMove_spec initial_board WhiteSide (Int 6, Int 4) (Int 4, Int 4));
    reflexivity.
Defined.

(** The applicator, at the opening move e2e4. *)
Lemma applyMove_effect_witness :
  is_grid (board (initial_world None)) = true
  /\ currentPlayer (initial_world None) = side_val WhiteSide
  /\ coord_ok (Int 6, Int 4) = true
  /\ coord_ok (Int 4, Int 4) = true
  /\ isValidMove (board (initial_world None)) (currentPlayer (initial_world None))
       (Int 6, Int 4) (Int 4, Int 4) = Ok true
  /\ exists w',
       applyMove (Int 6, Int 4) (Int 4, Int 4) (initial_world None) = (Ok tt, w')
       /\ cell (board w') (Int 4, Int 4) = cell (board (initial_world None)) (Int 6, Int 4)
       /\ cell (board w') (Int 6, Int 4) = Ok (JStr ".")
       /\ currentPlayer w' = side_val (opposite WhiteSide)
       /\ (forall c, coord_ok c = true -> c <> (Int 6, Int 4) -> c <> (Int 4, Int 4) ->
                     cell (board w') c = cell (board (initial_world None)) c)
       /\ is_grid (board w') = true
       /\ file w' = file (initial_world None)
       /\ console w' = console (initial_world None)
       /\ forall move,
            parseMove move = Ok {| from := (Int 6, Int 4); to := (Int 4, Int 4) |} ->
            exists lines, makeMove move (initial_world None) = (Ok tt, add_lines lines w').
Proof.
  split; [reflexivity |]. split; [reflexivity |]. split; [reflexivity |].
  split; [reflexivity |]. split; [reflexivity |].
  apply (applyMove_effect (initial_world None) WhiteSide (Int 6, Int 4) (Int 4, Int 4));
    reflexivity.
Defined.

(** The rejected move, at e7e5 with white to move: the pawn is black. *)
Lemma makeMove_rejected_witness :
  parseMove "e7e5" = Ok {| from := (Int 1, Int 4); to := (Int 3, Int 4) |}
  /\ isValidMove (board (initial_world None)) (currentPlayer (initial_world None))
       (Int 1, Int 4) (Int 3, Int 4) = Ok false
  /\ makeMove "e7e5" (initial_world None)
     = (Ok tt, add_line invalid_move_line (initial_world None))
  /\ board (snd (makeMove "e7e5" (initial_world None))) = board (initial_world None)
  /\ currentPlayer (snd (makeMove "e7e5" (initial_world None)))
     = currentPlayer (initial_world None)
  /\ file (snd (makeMove "e7e5" (initial_world None))) = file (initial_world None)
  /\ console (snd (makeMove "e7e5" (initial_world None)))
     = (console (initial_world None) ++ [chalk Red "Invalid move!"])%list.
Proof.
  split; [reflexivity |]. split; [reflexivity |].
  apply (makeMove_rejected (initial_world None) "e7e5"
           {| from := (Int 1, Int 4); to := (Int 3, Int 4) |}); reflexivity.
Defined.

(** Save, then load, at the initial state, the load running in a later
    process. *)
Lemma save_load_roundtrip_witness :
  json_faithful
  /\ is_grid (board (initial_world None)) = true
  /\ is_side (currentPlayer (initial_world None)) = true
  /\ file (initial_world (file (snd (saveGame (initial_world None)))))
     = file (snd (saveGame (initial_world None)))
  /\ fst (saveGame (initial_world None)) = Ok tt
  /\ fst (loadGame (initial_world (file (snd (saveGame (initial_world None)))))) = Ok tt
  /\ board (snd (loadGame (initial_world (file (snd (saveGame (initial_world None)))))))
     = board (initial_world None)
  /\ currentPlayer
       (snd (loadGame (initial_world (file (snd (saveGame (initial_world None)))))))
     = currentPlayer (initial_world None)
  /\ forall c,
       cell (board (snd (loadGame
                           (initial_world (file (snd (saveGame (initial_world None))))))))
            c
       = cell (board (initial_world None)) c.
Proof.
  split; [exact reference_json_faithful |]. split; [reflexivity |].
  split; [reflexivity |]. split; [reflexivity |].
  apply (save_load_roundtrip (initial_world None)
           (initial_world (file (snd (saveGame (initial_world None))))));
    [exact reference_json_faithful | reflexivity | reflexivity | reflexivity].
Defined.

(** The parser, at e2e4. *)
Lemma parseMove_spec_witness :
  is_file "e" /\ is_rank "2" /\ is_file "e" /\ is_rank "4"
  /\ parseMove "e2e4" = Ok {| from := square "e" "2"; to := square "e" "4" |}.
Proof.
  assert (Hf : is_file "e") by (vm_compute; split; discriminate).
  assert (H2 : is_rank "2") by (vm_compute; split; discriminate).
  assert (H4 : is_rank "4") by (vm_compute; split; discriminate).
  split; [exact Hf |]. split; [exact H2 |]. split; [exact Hf |]. split; [exact H4 |].
  exact (proj1 (proj2 (parseMove_spec "e2e4")) "e"%char "2"%char "e"%char "4"%char
               eq_refl Hf H2 Hf H4).
Defined.

(** The bounds of a parsed move, at e2e4. *)
Lemma parsed_move_in_bounds_witness :
  parseMove "e2e4" = Ok {| from := (Int 6, Int 4); to := (Int 4, Int 4) |}
  /\ coord_ok (Int 6, Int 4) = true /\ coord_ok (Int 4, Int 4) = true
  /\ forall w, is_grid (board w) = true ->
       in_bounds (board w) (Int 6, Int 4) /\ in_bounds (board w) (Int 4, Int 4)
       /\ (exists src dst,
             cell (board w) (Int 6, Int 4) = Ok (JStr src) /\ is_tag src = true
             /\ cell (board w) (Int 4, Int 4) = Ok (JStr dst) /\ is_tag dst = true)
       /\ (exists v, isValidMove (board w) (currentPlayer w) (Int 6, Int 4) (Int 4, Int 4)
                     = Ok v)
       /\ (forall x, is_piece x = true ->
             exists b1, set_cell (board w) (Int 4) (Int 4) x = Ok b1
                        /\ is_grid b1 = true /\ in_bounds b1 (Int 6, Int 4))
       /\ is_grid (board (snd (makeMove "e2e4" w))) = true.
Proof.
  split; [reflexivity |].
  apply (parsed_move_in_bounds "e2e4"
           {| from := (Int 6, Int 4); to := (Int 4, Int 4) |}). reflexivity.
Defined.

(** The board invariant, on the reference platform. *)
Lemma board_invariant_preserved_witness :
  json_faithful
  /\ is_grid initial_board = true
  /\ (forall w move, is_grid (board w) = true ->
                     is_grid (board (snd (makeMove move w))) = true)
  /\ (forall w, is_grid (board w) = true -> is_side (currentPlayer w) = true ->
                file_ok (file w) ->
                is_grid (board (snd (loadGame w))) = true)
  /\ (forall w, reachable w ->
                is_grid (board w) = true /\ is_side (currentPlayer w) = true
                /\ file_ok (file w)).
Proof.
  split; [exact reference_json_faithful |].
  apply board_invariant_preserved. exact reference_json_faithful.
Defined.

(** The move from a square to itself, at e2 in the initial state. *)
Lemma self_move_rejected_witness :
  is_grid (board (initial_world None)) = true
  /\ coord_ok (Int 6, Int 4) = true
  /\ isValidMove (board (initial_world None)) (currentPlayer (initial_world None))
       (Int 6, Int 4) (Int 6, Int 4) = Ok false
  /\ forall move,
       parseMove move = Ok {| from := (Int 6, Int 4); to := (Int 6, Int 4) |} ->
       makeMove move (initial_world None)
       = (Ok tt, add_line invalid_move_line (initial_world None)).
Proof.
  split; [reflexivity |]. split; [reflexivity |].
  apply (self_move_rejected (initial_world None) (Int 6, Int 4)); reflexivity.
Defined.

(** ** More theorems at concrete inputs *)

(** The picture of the initial board. *)
Lemma displayBoard_picture_witness :
  is_grid (board (initial_world None)) = true
  /\ currentPlayer (initial_world None) = JStr "white"
  /\ displayBoard (initial_world None)
     = (Ok tt, add_lines (picture (board_tags (board (initial_world None))) "white")
                 (initial_world None)).
Proof.
  split; [reflexivity |]. split; [reflexivity |].
  apply (displayBoard_picture (initial_world None) "white"); reflexivity.
Defined.

(** A rank that does not exist: e2e9. *)
Lemma makeMove_bad_notation_witness :
  ~ well_formed_notation "e2e9"
  /\ makeMove "e2e9" (initial_world None)
     = (Ok tt, add_line (chalk Red invalid_format_message) (initial_world None)).
Proof.
  assert (H : ~ well_formed_notation "e2e9").
  { intros H. apply regex_test_move_pattern in H. discriminate H. }
  split; [exact H |].
  apply (makeMove_bad_notation (initial_world None) "e2e9" H).
Defined.

(** The pieces over the opening move e2e4. *)
Lemma applyMove_conserves_witness :
  is_grid (board (initial_world None)) = true
  /\ coord_ok (Int 6, Int 4) = true /\ coord_ok (Int 4, Int 4) = true
  /\ isValidMove (board (initial_world None)) (currentPlayer (initial_world None))
       (Int 6, Int 4) (Int 4, Int 4) = Ok true
  /\ exists w' dst,
       applyMove (Int 6, Int 4) (Int 4, Int 4) (initial_world None) = (Ok tt, w')
       /\ cell (board (initial_world None)) (Int 4, Int 4) = Ok (JStr dst)
       /\ forall t,
            (count_tag (board w') t + (if String.eqb dst t then 1 else 0)
             = count_tag (board (initial_world None)) t
               + (if String.eqb "." t then 1 else 0))%nat.
Proof.
  split; [reflexivity |]. split; [reflexivity |]. split; [reflexivity |].
  split; [reflexivity |].
  apply (applyMove_conserves (initial_world None) (Int 6, Int 4) (Int 4, Int 4));
    reflexivity.
Defined.

(** The pieces over the moves e2e4, e7e5. *)
Lemma run_moves_never_add_pieces_witness :
  is_grid (board (initial_world None)) = true
  /\ fst (run_moves ["e2e4"; "e7e5"] (initial_world None)) = Ok tt
  /\ is_grid (board (snd (run_moves ["e2e4"; "e7e5"] (initial_world None)))) = true
  /\ (forall t, t <> "." ->
        (count_tag (board (snd (run_moves ["e2e4"; "e7e5"] (initial_world None)))) t
         <= count_tag (board (initial_world None)) t)%nat)
  /\ (count_tag (board (initial_world None)) "."
      <= count_tag (board (snd (run_moves ["e2e4"; "e7e5"] (initial_world None)))) ".")%nat.
Proof.
  split; [reflexivity |].
  apply (run_moves_never_add_pieces ["e2e4"; "e7e5"] (initial_world None)).
  reflexivity.
Defined.

(** What the opening move e2e4 prints. *)
Lemma makeMove_success_prints_witness :
  is_grid (board (initial_world None)) = true
  /\ currentPlayer (initial_world None) = side_val WhiteSide
  /\ parseMove "e2e4" = Ok {| from := (Int 6, Int 4); to := (Int 4, Int 4) |}
  /\ isValidMove (board (initial_world None)) (currentPlayer (initial_world None))
       (Int 6, Int 4) (Int 4, Int 4) = Ok true
  /\ exists w',
       applyMove (Int 6, Int 4) (Int 4, Int 4) (initial_world None) = (Ok tt, w')
       /\ makeMove "e2e4" (initial_world None)
          = (Ok tt, add_lines (chalk Green "Move successful!"
                                 :: picture (board_tags (board w'))
                                            (side_name (opposite WhiteSide))) w').
Proof.
  split; [reflexivity |]. split; [reflexivity |]. split; [reflexivity |].
  split; [reflexivity |].
  apply (makeMove_success_prints (initial_world None) WhiteSide "e2e4"
           {| from := (Int 6, Int 4); to := (Int 4, Int 4) |}); reflexivity.
Defined.

(** The pawn on e4 after e2e4. *)
Lemma moved_piece_waits_witness :
  is_grid (board (initial_world None)) = true
  /\ currentPlayer (initial_world None) = side_val WhiteSide
  /\ coord_ok (Int 6, Int 4) = true /\ coord_ok (Int 4, Int 4) = true
  /\ isValidMove (board (initial_world None)) (currentPlayer (initial_world None))
       (Int 6, Int 4) (Int 4, Int 4) = Ok true
  /\ exists w',
       applyMove (Int 6, Int 4) (Int 4, Int 4) (initial_world None) = (Ok tt, w')
       /\ forall to',
            isValidMove (board w') (currentPlayer w') (Int 4, Int 4) to' = Ok false.
Proof.
  split; [reflexivity |]. split; [reflexivity |]. split; [reflexivity |].
  split; [reflexivity |]. split; [reflexivity |].
  apply (moved_piece_waits (initial_world None) WhiteSide (Int 6, Int 4) (Int 4, Int 4));
    reflexivity.
Defined.

(** The initial board with [undefined] for the side to move: the black
    pawn e7 may go to e5. *)
Lemma unknown_side_moves_any_piece_witness :
  is_grid initial_board = true
  /\ coord_ok (Int 1, Int 4) = true /\ coord_ok (Int 3, Int 4) = true
  /\ is_side (@JUndefined Z) = false
  /\ exists src dst,
       cell initial_board (Int 1, Int 4) = Ok (JStr src)
       /\ cell initial_board (Int 3, Int 4) = Ok (JStr dst)
       /\ isValidMove initial_board JUndefined (Int 1, Int 4) (Int 3, Int 4)
          = Ok (validator_any_side src dst)
       /\ (validator_any_side src dst = true ->
           exists w',
             applyMove (Int 1, Int 4) (Int 3, Int 4)
               {| board := initial_board; currentPlayer := JUndefined;
                  file := None; console := [] |} = (Ok tt, w')
             /\ currentPlayer w' = JStr "white").
Proof.
  split; [reflexivity |]. split; [reflexivity |]. split; [reflexivity |].
  split; [reflexivity |].
  apply (unknown_side_moves_any_piece
           {| board := initial_board; currentPlayer := JUndefined;
              file := None; console := [] |} (Int 1, Int 4) (Int 3, Int 4));
    reflexivity.
Defined.

(** The empty object as a save file. *)
Lemma load_without_board_throws_witness :
  JSON_parse "{}" = Ok (JObj [])
  /\ get_named (JObj []) "board" = Ok JUndefined
  /\ get_named (JObj []) "currentPlayer" = Ok JUndefined
  /\ ((@JUndefined Z) = JUndefined \/ (@JUndefined Z) = JNull)
  /\ main CmdLoad (Some "{}")
     = (Throw (TypeError (engine_message JUndefined "0")),
        {| board := JUndefined; currentPlayer := JUndefined; file := Some "{}";
           console := [chalk Green "Game loaded successfully!"; header_line] |}).
Proof.
  split; [reflexivity |]. split; [reflexivity |]. split; [reflexivity |].
  split; [left; reflexivity |].
  apply (load_without_board_throws "{}" (JObj []) JUndefined JUndefined);
    [reflexivity | reflexivity | reflexivity | left; reflexivity].
Defined.

(** The load of the saved initial position. *)
Lemma load_saved_game_prints_witness :
  json_faithful
  /\ is_grid initial_board = true
  /\ is_side (@JStr Z "white") = true
  /\ main CmdLoad (Some (JSON_stringify (snapshot initial_board (JStr "white"))))
     = (Ok tt,
        {| board := initial_board; currentPlayer := JStr "white";
           file := Some (JSON_stringify (snapshot initial_board (JStr "white")));
           console := chalk Green "Game loaded successfully!"
                      :: picture (board_tags initial_board) "white" |}).
Proof.
  split; [exact reference_json_faithful |]. split; [reflexivity |].
  split; [reflexivity |].
  apply (load_saved_game_prints initial_board "white");
    [exact reference_json_faithful | reflexivity | reflexivity].
Defined.

(** The file a first [save] leaves. *)
Lemma only_the_start_is_saved_witness :
  left_behind (file (snd (main CmdSave None)))
  /\ (file (snd (main CmdSave None)) = None
      \/ file (snd (main CmdSave None)) = Some initial_save).
Proof.
  assert (H : left_behind (file (snd (main CmdSave None))))
    by (apply left_next, left_none).
  split; [exact H |].
  apply (only_the_start_is_saved _ H).
Defined.

(** The [load] after a first [save]. *)
Lemma load_restores_only_the_start_witness :
  json_faithful
  /\ left_behind (file (snd (main CmdSave None)))
  /\ fst (main CmdLoad (file (snd (main CmdSave None)))) = Ok tt
  /\ board (snd (main CmdLoad (file (snd (main CmdSave None))))) = initial_board
  /\ currentPlayer (snd (main CmdLoad (file (snd (main CmdSave None))))) = JStr "white".
Proof.
  assert (H : left_behind (file (snd (main CmdSave None))))
    by (apply left_next, left_none).
  split; [exact reference_json_faithful |]. split; [exact H |].
  apply (load_restores_only_the_start _ reference_json_faithful H).
Defined.

(** The run of [move e2e4]. *)
Lemma first_move_of_a_run_witness :
  parseMove "e2e4" = Ok {| from := (Int 6, Int 4); to := (Int 4, Int 4) |}
  /\ isValidMove initial_board (JStr "white") (Int 6, Int 4) (Int 4, Int 4)
     = Ok (first_move_ok {| from := (Int 6, Int 4); to := (Int 4, Int 4) |})
  /\ (first_move_ok {| from := (Int 6, Int 4); to := (Int 4, Int 4) |} = true ->
      exists w',
        applyMove (Int 6, Int 4) (Int 4, Int 4) (initial_world None) = (Ok tt, w')
        /\ board (snd (main (CmdMove "e2e4") None)) = board w'
        /\ currentPlayer (snd (main (CmdMove "e2e4") None)) = JStr "black")
  /\ (first_move_ok {| from := (Int 6, Int 4); to := (Int 4, Int 4) |} = false ->
      main (CmdMove "e2e4") None
      = (Ok tt, add_line invalid_move_line (initial_world None))).
Proof.
  split; [reflexivity |].
  apply (first_move_of_a_run "e2e4"
           {| from := (Int 6, Int 4); to := (Int 4, Int 4) |} None). reflexivity.
Defined.

(** The notation of the move from e2 to e4. *)
Lemma parse_unparse_witness :
  coord_ok (Int 6, Int 4) = true /\ coord_ok (Int 4, Int 4) = true
  /\ parseMove (unparse {| from := (Int 6, Int 4); to := (Int 4, Int 4) |})
     = Ok {| from := (Int 6, Int 4); to := (Int 4, Int 4) |}.
Proof.
  split; [reflexivity |]. split; [reflexivity |].
  apply (parse_unparse {| from := (Int 6, Int 4); to := (Int 4, Int 4) |});
    reflexivity.
Defined.

(** The string e2e4 from its move. *)
Lemma unparse_parse_witness :
  parseMove "e2e4" = Ok {| from := (Int 6, Int 4); to := (Int 4, Int 4) |}
  /\ unparse {| from := (Int 6, Int 4); to := (Int 4, Int 4) |} = "e2e4"
  /\ forall s',
       parseMove s' = Ok {| from := (Int 6, Int 4); to := (Int 4, Int 4) |} ->
       s' = "e2e4".
Proof.
  split; [reflexivity |].
  apply (unparse_parse "e2e4" {| from := (Int 6, Int 4); to := (Int 4, Int 4) |}).
  reflexivity.
Defined.
